(** * jsonnet-bundler: the local-rename engine of [main.go]

    A shallow embedding of the rename engine (line-offset index, span
    resolver, bind and reference collectors, name generator, replacement
    applier and the pipeline of [main]) together with the properties the
    specification states about it.

    Conventions of the embedding.
    - Go's [int] is taken at 64 bits and written as [Z]; every [+] and [-]
      of the source is [int_add] / [int_sub], which wrap around.
    - A Go [string] is a [string] (a sequence of 8-bit characters); a
      [[]byte] is a [ByteSlice]: the visible elements and the spare
      capacity of the backing array behind them, because Go checks a slice
      expression [s[lo:hi]] against [cap(s)], not [len(s)].
    - A function that can panic returns [exec A]; a result pair of a
      Replacement pointer and an error is [option Replacement] ([None] is
      the error [no match at loc]).
    - [*Context] is mutated by the collectors: they take and return the
      [Context]. *)

From Stdlib Require Import ZArith Lia Ascii String List Permutation Sorted.
From stdpp Require Import base list strings gmap sorting.

Local Open Scope Z_scope.

(** ** Go values *)

Module Go.

(** *** [int]: 64-bit two's complement *)

Definition int_bits : Z := 64.
Definition max_int : Z := 2 ^ (int_bits - 1) - 1.
Definition min_int : Z := - 2 ^ (int_bits - 1).

Definition int_wrap (z : Z) : Z :=
  (z + 2 ^ (int_bits - 1)) mod 2 ^ int_bits - 2 ^ (int_bits - 1).

Definition int_add (a b : Z) : Z := int_wrap (a + b).
Definition int_sub (a b : Z) : Z := int_wrap (a - b).

Definition in_int (z : Z) : Prop := min_int <= z <= max_int.

(** *** panics *)

Inductive exec (A : Type) : Type :=
| Ret (a : A)
| Panic.
Arguments Ret {A} a.
Arguments Panic {A}.

Definition bind {A B : Type} (m : exec A) (k : A -> exec B) : exec B :=
  match m with
  | Ret a => k a
  | Panic => Panic
  end.

(** *** [[]byte] *)

Definition NUL : ascii := Ascii.zero.
Definition LF : ascii := ascii_of_nat 10.

(** [elems] are the [len] visible bytes, [spare] the rest of the backing
    array up to [cap]. *)
Record ByteSlice : Type := mkSlice {
  elems : list ascii;
  spare : list ascii
}.

Definition len (s : ByteSlice) : nat := length (elems s).
Definition cap (s : ByteSlice) : nat := (length (elems s) + length (spare s))%nat.
Definition backing (s : ByteSlice) : list ascii := elems s ++ spare s.

(** [s[lo:hi]]: in range when [0 <= lo <= hi <= cap(s)]. *)
Definition slice (s : ByteSlice) (lo hi : Z) : exec ByteSlice :=
  if (0 <=? lo) && (lo <=? hi) && (hi <=? Z.of_nat (cap s)) then
    Ret {| elems := take (Z.to_nat hi - Z.to_nat lo) (drop (Z.to_nat lo) (backing s));
           spare := drop (Z.to_nat hi) (backing s) |}
  else Panic.

(** [s[:hi]] is [s[0:hi]]; [s[lo:]] is [s[lo:len(s)]]. *)
Definition slice_to (s : ByteSlice) (hi : Z) : exec ByteSlice := slice s 0 hi.
Definition slice_from (s : ByteSlice) (lo : Z) : exec ByteSlice :=
  slice s lo (Z.of_nat (len s)).

(** [string(s)] and [[]byte(str)]. *)
Definition string_of_bytes (s : ByteSlice) : string := string_of_list_ascii (elems s).

Section Runtime.

(** The capacity the runtime gives a freshly allocated array: a function of
    the old capacity and of the length needed (the size-class rounding of
    [growslice]), left open. *)
Variable newcap : nat -> nat -> nat.

Definition alloc (old : nat) (xs : list ascii) : ByteSlice :=
  {| elems := xs; spare := replicate (newcap old (length xs) - length xs) NUL |}.

Definition bytes_of_string (str : string) : ByteSlice :=
  alloc 0 (list_ascii_of_string str).

(** [append(s, xs...)]: in place when the capacity suffices, otherwise into
    a fresh array. *)
Definition append (s : ByteSlice) (xs : list ascii) : ByteSlice :=
  if (len s + length xs <=? cap s)%nat then
    {| elems := elems s ++ xs; spare := drop (length xs) (spare s) |}
  else alloc (cap s) (elems s ++ xs).

End Runtime.

End Go.

Import Go.

(** [exec] with stdpp's monad notation [x ← m; k]. *)
#[global] Instance exec_ret : MRet exec := @Ret.
#[global] Instance exec_bind : MBind exec := fun A B k m => bind m k.

(** ** The syntax tree, as the engine sees it *)

(** [ast.Location] and [ast.LocationRange] of go-jsonnet: 1-indexed line and
    column; a location is set when its line is not 0, a range when its
    begin is. *)
Record Location : Type := mkLoc { Line : Z; Column : Z }.
Record LocationRange : Type := mkRange { Begin_ : Location; End_ : Location }.

Definition Location_IsSet (l : Location) : bool := negb (Line l =? 0).
Definition IsSet (lr : LocationRange) : bool := Location_IsSet (Begin_ lr).

(** [ast.LocalBind]: the bound name and the range of the whole bind. The
    body is reached through the children of the enclosing node. *)
Record LocalBind : Type := mkBind {
  Variable_ : string;
  LocRange : LocationRange
}.

(** Modelled from the spec: [parser.Children] of the repository's
    [pkg/parser] is not among the sources. A node exposes its kind (local
    binding construct, variable reference, other), its location range and
    the ordered list of its children; the last component of each
    constructor is what [parser.Children] returns for the node. *)
#[warnings="-register-all"] Inductive Node : Type :=
| Local (loc : LocationRange) (Binds : list LocalBind) (children : list Node)
| Var (loc : LocationRange) (Id : string) (children : list Node)
| Other (loc : LocationRange) (children : list Node).

Definition Children (node : Node) : list Node :=
  match node with
  | Local _ _ cs | Var _ _ cs | Other _ cs => cs
  end.

Definition Loc (node : Node) : LocationRange :=
  match node with
  | Local l _ _ | Var l _ _ | Other l _ => l
  end.

(** ** Line-offset index *)

(** [buildLineOffsets]: the loop over [source], with the index [i] and the
    slice built so far. *)
Fixpoint buildLineOffsets_loop (i : Z) (bs : list ascii) (offsets : list Z) : list Z :=
  match bs with
  | [] => offsets
  | b :: rest =>
      buildLineOffsets_loop (i + 1) rest
        (if Ascii.eqb b LF then offsets ++ [int_add i 1] else offsets)
  end.

Definition buildLineOffsets (source : ByteSlice) : list Z :=
  buildLineOffsets_loop 0 (elems source) [0].

Definition lineColToOffset (lineOffsets : list Z) (line col : Z) : Z :=
  if (line <? 0) || (line >=? Z.of_nat (length lineOffsets)) then 0
  else int_add (default 0 (lineOffsets !! Z.to_nat line)) col.

(** ** Name generator *)

Module Fnv.

(** [hash/fnv] of the Go library: FNV-1a at 32 bits. *)
Definition offset32 : Z := 2166136261.
Definition prime32 : Z := 16777619.

Definition byte_val (c : ascii) : Z := Z.of_N (N_of_ascii c).

(** One step of [Write] on a [sum32a]: xor the byte in, multiply, keep 32 bits. *)
Definition step (h : Z) (c : ascii) : Z :=
  (Z.lxor h (byte_val c) * prime32) mod 2 ^ 32.

Definition Write (h : Z) (data : list ascii) : Z := fold_left step data h.

Definition Sum32a (data : list ascii) : Z := Write offset32 data.

End Fnv.

Module Fmt.

(** The verb [%08x] of [fmt.Sprintf] on an unsigned integer: the digits in
    base 16, lower case, most significant first, padded with zeros on the
    left to 8 characters at least. *)
Definition digit (d : Z) : ascii :=
  match d with
  | 0 => "0" | 1 => "1" | 2 => "2" | 3 => "3" | 4 => "4" | 5 => "5"
  | 6 => "6" | 7 => "7" | 8 => "8" | 9 => "9" | 10 => "a" | 11 => "b"
  | 12 => "c" | 13 => "d" | 14 => "e" | _ => "f"
  end%char.

(** [fmtInteger]: [for u >= 16 { buf[i] = digits[u&0xF]; u >>= 4 }] and then
    the last digit; [fuel] bounds the number of digits. *)
Fixpoint hex_digits (fuel : nat) (u : Z) (acc : list ascii) : list ascii :=
  match fuel with
  | O => acc
  | S fuel' =>
      if 16 <=? u then hex_digits fuel' (Z.shiftr u 4) (digit (Z.land u 15) :: acc)
      else digit u :: acc
  end.

Definition pad_zero (width : nat) (ds : list ascii) : list ascii :=
  replicate (width - length ds) "0"%char ++ ds.

Definition sprintf_08x (u : Z) : string :=
  string_of_list_ascii (pad_zero 8 (hex_digits (S (Z.to_nat (Z.log2 u))) u [])).

End Fmt.

(** Generate a hash-based prefix from the filename. *)
Definition hash (filename : string) : string :=
  let h := Fnv.Sum32a (list_ascii_of_string filename) in
  String "_" (Fmt.sprintf_08x h).

(** ** The context and the collectors *)

Record Replacement : Type := mkRep {
  beginOffset : Z;
  endOffset : Z;
  newValue : string
}.

Record Context : Type := mkContext {
  prefix : string;
  replacements : list Replacement;
  source : ByteSlice;
  lineOffsets : list Z;
  localBinds : gset string
}.

Definition strlen (s : string) : Z := Z.of_nat (String.length s).

Definition collectLocalBindReplacement (ctx : Context) (node : LocalBind)
    (oldName newName : string) : exec (option Replacement) :=
  let loc := LocRange node in
  if IsSet loc then
    let beginLine := int_sub (Line (Begin_ loc)) 1 in
    let beginCol := int_sub (Column (Begin_ loc)) 1 in
    let endLine := int_sub (Line (End_ loc)) 1 in
    let endCol := int_sub (int_add (Column (Begin_ loc)) (strlen oldName)) 1 in
    let beginOffset := lineColToOffset (lineOffsets ctx) beginLine beginCol in
    let endOffset := lineColToOffset (lineOffsets ctx) endLine endCol in
    span ← slice (source ctx) beginOffset endOffset;
    if String.eqb (string_of_bytes span) oldName
    then Ret (Some (mkRep beginOffset endOffset newName))
    else Ret None
  else Ret None.

Definition collectVarReplacement (ctx : Context) (node : Node)
    (oldName newName : string) : exec (option Replacement) :=
  let loc := Loc node in
  if IsSet loc then
    let beginLine := int_sub (Line (Begin_ loc)) 1 in
    let beginCol := int_sub (Column (Begin_ loc)) 1 in
    let endLine := int_sub (Line (End_ loc)) 1 in
    let endCol := int_sub (Column (End_ loc)) 1 in
    let beginOffset := lineColToOffset (lineOffsets ctx) beginLine beginCol in
    let endOffset := lineColToOffset (lineOffsets ctx) endLine endCol in
    span ← slice (source ctx) beginOffset endOffset;
    if String.eqb (string_of_bytes span) oldName
    then Ret (Some (mkRep beginOffset endOffset newName))
    else Ret None
  else Ret None.

Definition add_replacement (ctx : Context) (rep : Replacement) : Context :=
  mkContext (prefix ctx) (replacements ctx ++ [rep]) (source ctx)
            (lineOffsets ctx) (localBinds ctx).

Definition add_localBind (ctx : Context) (name : string) : Context :=
  mkContext (prefix ctx) (replacements ctx) (source ctx)
            (lineOffsets ctx) ({[ name ]} ∪ localBinds ctx).

(** The body of [for _, b := range n.Binds] for one bind. *)
Definition collectBind (ctx : Context) (b : LocalBind) : exec Context :=
  r ← collectLocalBindReplacement ctx b (Variable_ b)
        (prefix ctx +:+ "_" +:+ Variable_ b);
  match r with
  | Some rep => Ret (add_localBind (add_replacement ctx rep) (Variable_ b))
  | None => Ret ctx
  end.

(** [for _, x := range xs { body }] over the context. *)
Definition forEach {A : Type} (body : Context -> A -> exec Context)
    : Context -> list A -> exec Context :=
  fix loop (ctx : Context) (xs : list A) {struct xs} : exec Context :=
    match xs with
    | [] => Ret ctx
    | x :: rest => ctx' ← body ctx x; loop ctx' rest
    end.

Fixpoint collectLocalBindReplacements (ctx : Context) (node : Node) {struct node}
    : exec Context :=
  ctx1 ← match node with
         | Local _ binds _ => forEach collectBind ctx binds
         | _ => Ret ctx
         end;
  forEach collectLocalBindReplacements ctx1 (Children node).

(** The case of a variable reference: the reference [v], its node and its
    identifier, is a candidate when the identifier is in [ctx.localBinds];
    [collectCandidate] is the body of that test. *)
Definition collectCandidate (ctx : Context) (v : Node * string)
    : exec Context :=
  r ← collectVarReplacement ctx (fst v) (snd v) (prefix ctx +:+ "_" +:+ snd v);
  match r with
  | Some rep => Ret (add_replacement ctx rep)
  | None => Ret ctx
  end.

Definition collectVar (ctx : Context) (n : Node) (id : string)
    : exec Context :=
  if bool_decide (id ∈ localBinds ctx) then collectCandidate ctx (n, id)
  else Ret ctx.

Fixpoint collectVarReplacements (ctx : Context) (node : Node) {struct node}
    : exec Context :=
  ctx1 ← match node with
         | Var _ id _ => collectVar ctx node id
         | _ => Ret ctx
         end;
  forEach collectVarReplacements ctx1 (Children node).

(** ** Replacement applier and pipeline *)

(** The context [main] starts from. *)
Definition initContext (path : string) (code : ByteSlice) : Context :=
  mkContext (hash path) [] code (buildLineOffsets code) ∅.

(** The [less] closure handed to [sort.Slice]. *)
Definition less (a b : Replacement) : bool := beginOffset a >? beginOffset b.

(** [sort.Slice] on twelve elements or fewer is [insertionSortLessFunc]:
    each element moves left while it is [less] than its left neighbour.
    [insert_left x rprefix] works on the sorted prefix in reverse. *)
Fixpoint insert_left (lt : Replacement -> Replacement -> bool) (x : Replacement)
    (rprefix : list Replacement) : list Replacement :=
  match rprefix with
  | [] => [x]
  | y :: r => if lt x y then y :: insert_left lt x r else x :: y :: r
  end.

Definition insertionSort (lt : Replacement -> Replacement -> bool)
    (l : list Replacement) : list Replacement :=
  reverse (fold_left (fun acc x => insert_left lt x acc) l []).

Section Engine.

(** The two library behaviours the engine's result can depend on: the
    capacity of fresh arrays, and the order [sort.Slice] (not stable) gives
    to edits that compare equal. *)
Variable newcap : nat -> nat -> nat.
Variable sort_Slice :
  (Replacement -> Replacement -> bool) -> list Replacement -> list Replacement.

(** [out = append(out[:rep.beginOffset],
                  append([]byte(rep.newValue), out[rep.endOffset:]...)...)] *)
Definition splice (out : ByteSlice) (rep : Replacement) : exec ByteSlice :=
  head ← slice_to out (beginOffset rep);
  tail ← slice_from out (endOffset rep);
  let inner := append newcap (bytes_of_string newcap (newValue rep)) (elems tail) in
  Ret (append newcap head (elems inner)).

Fixpoint applyLoop (out : ByteSlice) (reps : list Replacement) : exec ByteSlice :=
  match reps with
  | [] => Ret out
  | rep :: rest => out' ← splice out rep; applyLoop out' rest
  end.

Definition applyReplacements (ctx : Context) : exec ByteSlice :=
  let reps := sort_Slice less (replacements ctx) in
  applyLoop (source ctx) reps.

(** The comment [main] puts in front of the rewritten source; [now] is
    [time.Now().Format(time.RFC3339)]. *)
Definition header (now path : string) : string :=
  "// Auto-generated by jsonnet-bundler at " +:+ now +:+ " for " +:+ path
    +:+ String LF "".

(** [main] from the bytes [os.ReadFile] returned and the tree
    [vm.ImportAST] returned to the bytes handed to [os.WriteFile]; [path]
    is the variable [source] of [main]. [newSource] is [main] up to
    [newSource := applyReplacements(ctx)]. *)
Definition newSource (path : string) (code : ByteSlice) (node : Node)
    : exec ByteSlice :=
  let ctx := initContext path code in
  ctx1 ← collectLocalBindReplacements ctx node;
  ctx2 ← collectVarReplacements ctx1 node;
  applyReplacements ctx2.

Definition run (path now : string) (code : ByteSlice) (node : Node)
    : exec (list ascii) :=
  out ← newSource path code node;
  Ret (elems (append newcap (bytes_of_string newcap (header now path))
                     (elems out))).

Definition main (now : string) (code : ByteSlice) (node : Node) : exec (list ascii) :=
  run "input/konn/main.libsonnet" now code node.

End Engine.

(** ** What the specification speaks of *)

(** The lines of a buffer: the maximal runs without a newline, as
    [strings.Split(string(source), "\n")] gives them. *)
Fixpoint split_lines (bs : list ascii) : list (list ascii) :=
  match bs with
  | [] => [[]]
  | b :: rest =>
      if Ascii.eqb b LF then [] :: split_lines rest
      else match split_lines rest with
           | l :: ls => (b :: l) :: ls
           | [] => [[b]]
           end
  end.

(** The byte offset at which line [i] (0-indexed) starts: every line before
    it contributes its bytes and its newline, the sum the earlier
    [lineColToOffset] of the repository took over the split source. *)
Definition line_start (bs : list ascii) (i : nat) : Z :=
  Z.of_nat (sum_list_with (fun l => S (length l)) (take i (split_lines bs))).

Definition newlines (bs : list ascii) : nat :=
  length (filter (fun b => b = LF) bs).

(** Characters of an identifier of the target language:
    [[_a-zA-Z][_a-zA-Z0-9]*]. *)
Definition is_digit (c : ascii) : bool :=
  (48 <=? nat_of_ascii c)%nat && (nat_of_ascii c <=? 57)%nat.

Definition is_letter (c : ascii) : bool :=
  ((65 <=? nat_of_ascii c)%nat && (nat_of_ascii c <=? 90)%nat)
  || ((97 <=? nat_of_ascii c)%nat && (nat_of_ascii c <=? 122)%nat).

Definition is_ident_start (c : ascii) : bool :=
  Ascii.eqb c "_" || is_letter c.

Definition is_ident_char (c : ascii) : bool :=
  is_ident_start c || is_digit c.

Definition is_hex_digit (c : ascii) : bool :=
  is_digit c || ((97 <=? nat_of_ascii c)%nat && (nat_of_ascii c <=? 102)%nat).

(** The number a string of lower-case hexadecimal digits denotes. *)
Definition digit_val (c : ascii) : Z :=
  if is_digit c then Z.of_nat (nat_of_ascii c) - 48
  else Z.of_nat (nat_of_ascii c) - 87.

Definition hex_value (ds : list ascii) : Z :=
  fold_left (fun a c => a * 16 + digit_val c) ds 0.

(** The binds and the variable references of a tree, in the order a
    depth-first walk that handles a node before its children meets them. *)
Fixpoint bindsOf (node : Node) : list LocalBind :=
  match node with
  | Local _ binds _ => binds
  | _ => []
  end ++ flat_map bindsOf (Children node).

Fixpoint varsOf (node : Node) : list (Node * string) :=
  match node with
  | Var _ id _ => [(node, id)]
  | _ => []
  end ++ flat_map varsOf (Children node).

(** The passes change the edit list and the rename set only. *)
Definition same_buffer (ctx ctx' : Context) : Prop :=
  prefix ctx' = prefix ctx /\ source ctx' = source ctx /\
  lineOffsets ctx' = lineOffsets ctx.

(** The bytes of [arr] from [b] up to [e] exist and spell [name]. *)
Definition span_matches (arr : list ascii) (b e : Z) (name : string) : Prop :=
  0 <= b /\ b <= e /\ e <= Z.of_nat (length arr) /\
  take (Z.to_nat e - Z.to_nat b) (drop (Z.to_nat b) arr) = list_ascii_of_string name.

(** The invariant of an accepted edit over the bytes [arr]: its span spells
    an identifier, and its new text is that identifier behind the prefix. *)
Definition edit_matches (arr : list ascii) (pfx : string) (r : Replacement) : Prop :=
  exists oldName : string,
    newValue r = pfx +:+ "_" +:+ oldName /\
    span_matches arr (beginOffset r) (endOffset r) oldName.

(** A name as the lexer gives them: not empty, no NUL byte. *)
Definition plain_name (name : string) : Prop :=
  name <> "" /\ NUL ∉ list_ascii_of_string name.

Definition plain_names (node : Node) : Prop :=
  Forall (fun b => plain_name (Variable_ b)) (bindsOf node) /\
  Forall (fun v => plain_name (snd v)) (varsOf node).

(** An edit whose offsets are valid in a buffer of [n] bytes. *)
Definition valid_edit (n : nat) (r : Replacement) : Prop :=
  0 <= beginOffset r /\ beginOffset r <= endOffset r /\ endOffset r <= Z.of_nat n.

(** Two half-open ranges share no byte: one ends where the other begins, or
    before. *)
Definition disjoint_edits (a b : Replacement) : Prop :=
  endOffset a <= beginOffset b \/ endOffset b <= beginOffset a.

Fixpoint non_overlapping (reps : list Replacement) : Prop :=
  match reps with
  | [] => True
  | a :: rest => Forall (disjoint_edits a) rest /\ non_overlapping rest
  end.

(** The edits laid out in the order of the source: each ends before every
    later one begins. *)
Definition in_source_order (asc : list Replacement) : Prop :=
  StronglySorted (fun a b => endOffset a <= beginOffset b) asc.

(** The buffer [src] from position [pos] up to [stop] with every range of
    [asc] replaced by its new text: the bytes before the first edit, its
    text, then the same behind its end. *)
Fixpoint rebuild_to (src : list ascii) (pos : nat) (asc : list Replacement)
    (stop : nat) : list ascii :=
  match asc with
  | [] => take (stop - pos) (drop pos src)
  | r :: rest =>
      take (Z.to_nat (beginOffset r) - pos) (drop pos src)
        ++ list_ascii_of_string (newValue r)
        ++ rebuild_to src (Z.to_nat (endOffset r)) rest stop
  end.

Definition rebuild (src : list ascii) (asc : list Replacement) : list ascii :=
  rebuild_to src 0 asc (length src).

(** [out] is [src] with the range of every edit of [reps] replaced by its
    new text. *)
Definition Replaced (src : list ascii) (reps : list Replacement)
    (out : list ascii) : Prop :=
  exists asc, Permutation asc reps /\ in_source_order asc /\ out = rebuild src asc.

(** A runtime that gives a fresh array exactly the capacity needed; the
    visible bytes of every result are the same for any other. *)
Definition exact_cap (old needed : nat) : nat := needed.

(** Two edits that share no byte and begin at the same offset. *)
Definition ties_ctx : Context :=
  mkContext "" [mkRep 0 0 "A"; mkRep 0 1 "B"]
            (mkSlice (list_ascii_of_string "xyz") []) [0] ∅.

(** Two edits at distinct offsets. *)
Definition two_edits_ctx : Context :=
  mkContext "" [mkRep 0 1 "XX"; mkRep 2 3 "YYY"]
            (mkSlice (list_ascii_of_string "abcd") []) [0] ∅.

(** *** Concrete inputs *)

Definition loc (l1 c1 l2 c2 : Z) : LocationRange :=
  mkRange (mkLoc l1 c1) (mkLoc l2 c2).

(** What [os.ReadFile] returns for a file of these bytes: at least 512
    bytes of capacity and one more than the file has, zeroed behind the
    content. *)
Definition readFile (content : string) : ByteSlice :=
  mkSlice (list_ascii_of_string content)
          (replicate (Nat.max 512 (S (String.length content)) - String.length content) NUL).

(** The file [local x = 1; x + 2] and its tree: the bind of [x] ranges from
    the name to the end of its body. *)
Definition example_code : ByteSlice := readFile "local x = 1; x + 2".

Definition example_tree : Node :=
  Local (loc 1 1 1 19) [mkBind "x" (loc 1 7 1 12)]
    [Other (loc 1 11 1 12) [];
     Other (loc 1 14 1 19) [Var (loc 1 14 1 15) "x" []; Other (loc 1 18 1 19) []]].

(** The file [local x = 1; x + y] and its tree: [x] is bound in the file,
    [y] is not. *)
Definition mixed_code : ByteSlice := readFile "local x = 1; x + y".

Definition mixed_tree : Node :=
  Local (loc 1 1 1 19) [mkBind "x" (loc 1 7 1 12)]
    [Other (loc 1 11 1 12) [];
     Other (loc 1 14 1 19) [Var (loc 1 14 1 15) "x" []; Var (loc 1 18 1 19) "y" []]].

Definition mixed_ctx : Context := initContext "a.conf" mixed_code.

Definition mixed_ctx1 : Context :=
  add_localBind (add_replacement mixed_ctx (mkRep 6 7 "_b31f2734_x")) "x".

(** A buffer holding [local b=1;b] whose length is cut to 10 bytes: the
    last [b] lies in the spare capacity. *)
Definition cut_code : ByteSlice :=
  mkSlice (list_ascii_of_string "local b=1;") (list_ascii_of_string "b").

Definition cut_tree : Node :=
  Local (loc 1 1 1 12) [mkBind "b" (loc 1 7 1 10)]
    [Other (loc 1 9 1 10) []; Var (loc 1 11 1 12) "b" []].

(** The contexts of the two passes on the example, for the file identity
    [a.conf]. *)
Definition example_ctx : Context := initContext "a.conf" example_code.

Definition example_ctx1 : Context :=
  add_localBind (add_replacement example_ctx (mkRep 6 7 "_b31f2734_x")) "x".

Definition example_ctx2 : Context :=
  add_replacement example_ctx1 (mkRep 13 14 "_b31f2734_x").

Definition cut_ctx : Context := initContext "a.conf" cut_code.

(** The file [local x = 1; function(x) x]: the last [x] refers to the
    parameter, which is neither a bind nor a reference. *)
Definition shadow_code : ByteSlice := readFile "local x = 1; function(x) x".

Definition shadow_tree : Node :=
  Local (loc 1 1 1 27) [mkBind "x" (loc 1 7 1 12)]
    [Other (loc 1 11 1 12) [];
     Other (loc 1 14 1 27) [Var (loc 1 26 1 27) "x" []]].

Definition nl : string := String LF "".

(** A bind whose body stands on the next line:
    [local x =], [  1;], [x + x + x]. The range of the bind ends behind the
    body, on line 2. *)
Definition multiline_code : ByteSlice :=
  readFile ("local x =" +:+ nl +:+ "  1;" +:+ nl +:+ "x + x + x").

Definition multiline_bind : LocalBind := mkBind "x" (loc 1 7 2 4).

Definition multiline_tree : Node :=
  Local (loc 1 1 3 10) [multiline_bind]
    [Other (loc 2 3 2 4) [];
     Other (loc 3 1 3 10)
       [Other (loc 3 1 3 6) [Var (loc 3 1 3 2) "x" []; Var (loc 3 5 3 6) "x" []];
        Var (loc 3 9 3 10) "x" []]].

Definition multiline_ctx : Context := initContext "a.conf" multiline_code.

(** A file of 528 bytes: on line 1 a comment of 510 bytes and the opening of
    a bind of [x] to an array, on line 2 the rest of the array and a
    reference to [x]. *)
Definition long_code : ByteSlice :=
  readFile ("/*" +:+ string_of_list_ascii (replicate 506 "-"%char) +:+ "*/"
            +:+ " local x = [" +:+ nl +:+ "1]; x").

Definition long_tree : Node :=
  Local (loc 1 512 2 6) [mkBind "x" (loc 1 518 2 3)]
    [Other (loc 1 522 2 3) [Other (loc 2 1 2 2) []];
     Var (loc 2 5 2 6) "x" []].

Definition long_ctx : Context := initContext "a.conf" long_code.

(** ** The earlier resolver *)

Module Earlier.

(** The [lineColToOffset] of the earlier revision in [main.go], which
    splits the source at every call:
    [for i := range line { offset += len(lines[i]) + 1 }] runs for [i] from
    0 up to [line - 1], not at all for a [line] of 0 or less, and indexing
    [lines] outside its length panics. [split_lines] is
    [strings.Split(string(source), "\n")]. *)
Fixpoint lineColToOffset_loop (lines : list (list ascii)) (i : nat) (todo : nat)
    (offset : Z) : exec Z :=
  match todo with
  | O => Ret offset
  | S todo' =>
      match lines !! i with
      | Some l =>
          lineColToOffset_loop lines (S i) todo'
            (int_add offset (int_add (Z.of_nat (length l)) 1))
      | None => Panic
      end
  end.

Definition lineColToOffset (source : ByteSlice) (line col : Z) : exec Z :=
  let lines := split_lines (elems source) in
  offset ← lineColToOffset_loop lines 0 (Z.to_nat line) 0;
  Ret (int_add offset col).

End Earlier.

(** ** The outcome of a candidate *)

(** The offsets the collectors resolve for a bind and for a reference. *)
Definition bindOffsets (ctx : Context) (b : LocalBind) : Z * Z :=
  (lineColToOffset (lineOffsets ctx) (int_sub (Line (Begin_ (LocRange b))) 1)
                   (int_sub (Column (Begin_ (LocRange b))) 1),
   lineColToOffset (lineOffsets ctx) (int_sub (Line (End_ (LocRange b))) 1)
     (int_sub (int_add (Column (Begin_ (LocRange b))) (strlen (Variable_ b))) 1)).

Definition varOffsets (ctx : Context) (n : Node) : Z * Z :=
  (lineColToOffset (lineOffsets ctx) (int_sub (Line (Begin_ (Loc n))) 1)
                   (int_sub (Column (Begin_ (Loc n))) 1),
   lineColToOffset (lineOffsets ctx) (int_sub (Line (End_ (Loc n))) 1)
                   (int_sub (Column (End_ (Loc n))) 1)).

(** A span a slice expression on the buffer accepts. *)
Definition in_capacity (ctx : Context) (span : Z * Z) : Prop :=
  0 <= fst span /\ fst span <= snd span /\ snd span <= Z.of_nat (cap (source ctx)).

(** What the bind pass and the reference pass ask about a candidate, and
    the edit it gives, if any. *)
Definition bindResult (ctx : Context) (b : LocalBind) : exec (option Replacement) :=
  collectLocalBindReplacement ctx b (Variable_ b) (prefix ctx +:+ "_" +:+ Variable_ b).

Definition varResult (ctx : Context) (v : Node * string) : exec (option Replacement) :=
  collectVarReplacement ctx (fst v) (snd v) (prefix ctx +:+ "_" +:+ snd v).

Definition edit_of (r : exec (option Replacement)) : option Replacement :=
  match r with
  | Ret e => e
  | Panic => None
  end.

(** By how many bytes an edit lengthens the buffer, and a list of edits
    together. *)
Definition growth (r : Replacement) : Z :=
  strlen (newValue r) - (endOffset r - beginOffset r).

Definition total_growth (reps : list Replacement) : Z :=
  fold_right (fun r acc => growth r + acc) 0 reps.

(** An identifier of Jsonnet: a letter or an underscore, then letters,
    digits and underscores. *)
Definition is_identifier (s : string) : bool :=
  match list_ascii_of_string s with
  | [] => false
  | c :: cs => is_ident_start c && forallb is_ident_char cs
  end.

(** The new name of [oldName] in the file [path]: the collectors build
    [ctx.prefix + "_" + oldName], and [main] sets the prefix to
    [hash(path)]. *)
Definition newName (path oldName : string) : string :=
  hash path +:+ "_" +:+ oldName.

(** * Properties *)

(** ** Integers and slices *)

Ltac unfold_int :=
  cbv [in_int int_wrap min_int max_int int_bits int_add int_sub] in *;
  change (2 ^ (64 - 1)) with 9223372036854775808 in *;
  change (2 ^ 64) with 18446744073709551616 in *.

Lemma int_wrap_in_int (z : Z) : in_int z -> int_wrap z = z.
Proof. unfold_int. intros H. rewrite Z.mod_small; lia. Qed.

Lemma int_wrap_range (z : Z) : in_int (int_wrap z).
Proof.
  unfold_int.
  pose proof (Z.mod_pos_bound (z + 9223372036854775808) 18446744073709551616
                ltac:(lia)).
  lia.
Qed.

Lemma int_add_exact (a b : Z) : in_int (a + b) -> int_add a b = a + b.
Proof. apply int_wrap_in_int. Qed.

Lemma int_sub_exact (a b : Z) : in_int (a - b) -> int_sub a b = a - b.
Proof. apply int_wrap_in_int. Qed.

Lemma list_ascii_of_string_app (a b : string) :
  list_ascii_of_string (a +:+ b) = list_ascii_of_string a ++ list_ascii_of_string b.
Proof. induction a as [|c a IH]; [reflexivity|]. simpl. now rewrite IH. Qed.

Lemma list_ascii_of_string_inj (a b : string) :
  list_ascii_of_string a = list_ascii_of_string b -> a = b.
Proof.
  intros H. rewrite <- (string_of_list_ascii_of_string a),
              <- (string_of_list_ascii_of_string b). now rewrite H.
Qed.

Lemma bind_Ret_inv {A B : Type} (m : exec A) (k : A -> exec B) (b : B) :
  mbind k m = Ret b -> exists a, m = Ret a /\ k a = Ret b.
Proof. destruct m as [a|]; simpl; [eauto | discriminate]. Qed.

Lemma slice_Ret_inv (s t : ByteSlice) (lo hi : Z) :
  slice s lo hi = Ret t ->
  0 <= lo <= hi /\ hi <= Z.of_nat (cap s) /\
  elems t = take (Z.to_nat hi - Z.to_nat lo) (drop (Z.to_nat lo) (backing s)) /\
  spare t = drop (Z.to_nat hi) (backing s).
Proof.
  unfold slice.
  destruct (Z.leb_spec 0 lo); simpl; [|discriminate].
  destruct (Z.leb_spec lo hi); simpl; [|discriminate].
  destruct (Z.leb_spec hi (Z.of_nat (cap s))); simpl; [|discriminate].
  intros [= <-]. simpl. repeat split; lia.
Qed.

Lemma slice_in_range (s : ByteSlice) (lo hi : Z) :
  0 <= lo <= hi -> hi <= Z.of_nat (cap s) ->
  slice s lo hi =
    Ret {| elems := take (Z.to_nat hi - Z.to_nat lo) (drop (Z.to_nat lo) (backing s));
           spare := drop (Z.to_nat hi) (backing s) |}.
Proof.
  intros H1 H2. unfold slice.
  destruct (Z.leb_spec 0 lo); [|lia].
  destruct (Z.leb_spec lo hi); [|lia].
  destruct (Z.leb_spec hi (Z.of_nat (cap s))); [|lia]. reflexivity.
Qed.

Lemma slice_out_of_range (s : ByteSlice) (lo hi : Z) :
  lo < 0 \/ hi < lo \/ Z.of_nat (cap s) < hi -> slice s lo hi = Panic.
Proof.
  intros H. unfold slice.
  destruct (Z.leb_spec 0 lo); [|reflexivity].
  destruct (Z.leb_spec lo hi); [|reflexivity].
  destruct (Z.leb_spec hi (Z.of_nat (cap s))); [lia|reflexivity].
Qed.

Lemma elems_append (newcap : nat -> nat -> nat) (s : ByteSlice) (xs : list ascii) :
  elems (append newcap s xs) = elems s ++ xs.
Proof. unfold append. destruct (_ <=? _)%nat; reflexivity. Qed.

(** ** Span resolver *)

(** C6. The resolver returns [table[line] + col] (Go's addition on [int],
    which is the mathematical sum whenever that fits an [int]) for a line
    inside the table and 0 for a line outside it. *)
Theorem lineColToOffset_contract (table : list Z) (line col : Z) :
  0 <= line -> 0 <= col ->
  (line < Z.of_nat (length table) ->
     exists v, table !! Z.to_nat line = Some v /\
               lineColToOffset table line col = int_add v col /\
               (in_int (v + col) -> lineColToOffset table line col = v + col)) /\
  (Z.of_nat (length table) <= line -> lineColToOffset table line col = 0).
Proof.
  intros Hl Hc. unfold lineColToOffset.
  destruct (Z.ltb_spec line 0); [lia|].
  unfold Z.geb. destruct (Z.compare_spec line (Z.of_nat (length table))); simpl.
  - split; [lia|reflexivity].
  - split; [|lia]. intros _.
    destruct (table !! Z.to_nat line) as [v|] eqn:Hv.
    + exists v. split; [reflexivity|]. split; [reflexivity|]. apply int_add_exact.
    + apply lookup_ge_None in Hv. lia.
  - split; [lia|reflexivity].
Qed.

Lemma lineColToOffset_contract_witness :
  (exists v, [0; 3; 4] !! Z.to_nat 1 = Some v /\
             lineColToOffset [0; 3; 4] 1 2 = int_add v 2 /\
             (in_int (v + 2) -> lineColToOffset [0; 3; 4] 1 2 = v + 2)) /\
  lineColToOffset [0; 3; 4] 3 2 = 0.
Proof.
  split.
  - apply (lineColToOffset_contract [0; 3; 4] 1 2); simpl; lia.
  - apply (lineColToOffset_contract [0; 3; 4] 3 2); simpl; lia.
Defined.

(** ** Line-offset index *)

Lemma split_lines_length (bs : list ascii) :
  length (split_lines bs) = S (newlines bs).
Proof.
  unfold newlines. induction bs as [|b rest IH]; [reflexivity|].
  simpl split_lines. destruct (Ascii.eqb_spec b LF) as [->|Hne].
  - rewrite filter_cons_True by reflexivity. simpl. now rewrite IH.
  - rewrite filter_cons_False by assumption.
    destruct (split_lines rest); simpl in *; [discriminate|assumption].
Qed.

Lemma line_start_0 (bs : list ascii) : line_start bs 0 = 0.
Proof. reflexivity. Qed.

Lemma line_start_cons (b : ascii) (rest : list ascii) (j : nat) :
  line_start (b :: rest) (S j) =
    1 + (if Ascii.eqb b LF then line_start rest j else line_start rest (S j)).
Proof.
  unfold line_start. simpl split_lines. destruct (Ascii.eqb b LF).
  - simpl. lia.
  - pose proof (split_lines_length rest) as Hlen.
    destruct (split_lines rest) as [|l ls]; [discriminate|]. simpl. lia.
Qed.

Lemma line_start_step (bs : list ascii) (j : nat) :
  (j < length (split_lines bs))%nat -> line_start bs j < line_start bs (S j).
Proof.
  unfold line_start. intros Hj.
  destruct (lookup_lt_is_Some_2 _ _ Hj) as [l Hl].
  rewrite (take_S_r _ _ _ Hl), sum_list_with_app. simpl. lia.
Qed.

Lemma line_start_mono (bs : list ascii) (j k : nat) :
  (j < k)%nat -> (k <= newlines bs)%nat -> line_start bs j < line_start bs k.
Proof.
  intros Hjk Hk. induction k as [|k IH]; [lia|].
  pose proof (line_start_step bs k) as Hs. rewrite split_lines_length in Hs.
  destruct (decide (j = k)) as [->|Hne]; [apply Hs; lia|].
  etransitivity; [apply IH; lia|apply Hs; lia].
Qed.

(** The loop appends, for each newline still ahead, the start of the line
    behind it. *)
Lemma buildLineOffsets_loop_spec (bs : list ascii) (i : Z) (acc : list Z) :
  0 <= i -> i + Z.of_nat (length bs) <= max_int ->
  buildLineOffsets_loop i bs acc =
    acc ++ map (fun j => i + line_start bs j) (seq 1 (newlines bs)).
Proof.
  revert i acc. induction bs as [|b rest IH]; intros i acc Hi Hmax.
  - simpl. now rewrite app_nil_r.
  - simpl buildLineOffsets_loop. simpl length in Hmax.
    rewrite IH by lia. unfold newlines.
    destruct (Ascii.eqb_spec b LF) as [->|Hne].
    + rewrite filter_cons_True by reflexivity. simpl length.
      rewrite int_add_exact by (unfold_int; lia).
      rewrite <- app_assoc. f_equal. simpl seq. simpl map.
      rewrite line_start_cons, Ascii.eqb_refl, line_start_0.
      change ([i + 1] ++ ?l) with ((i + 1) :: l).
      apply (f_equal (cons (i + 1))).
      rewrite <- (seq_shift _ 1), map_map. apply map_ext. intros j.
      rewrite line_start_cons, Ascii.eqb_refl. lia.
    + rewrite filter_cons_False by assumption. f_equal.
      apply map_ext_in. intros j Hj. apply in_seq in Hj.
      destruct j as [|j]; [lia|]. rewrite line_start_cons.
      destruct (Ascii.eqb_spec b LF); [contradiction|lia].
Qed.

Lemma buildLineOffsets_spec (source : ByteSlice) :
  Z.of_nat (len source) <= max_int ->
  buildLineOffsets source =
    map (line_start (elems source)) (seq 0 (S (newlines (elems source)))).
Proof.
  intros Hmax. unfold buildLineOffsets.
  rewrite buildLineOffsets_loop_spec by (unfold len in Hmax; lia).
  simpl. f_equal.
Qed.

(** C7. For a buffer as long as a Go slice can be, the table is strictly
    increasing, starts with 0, has one entry more than the buffer has
    newlines, and its entry [i] is the byte offset at which line [i]
    starts. *)
Theorem buildLineOffsets_invariant (source : ByteSlice) :
  Z.of_nat (len source) <= max_int ->
  StronglySorted Z.lt (buildLineOffsets source) /\
  buildLineOffsets source !! 0%nat = Some 0 /\
  length (buildLineOffsets source) = S (newlines (elems source)) /\
  (forall i : nat, (i < length (buildLineOffsets source))%nat ->
     buildLineOffsets source !! i = Some (line_start (elems source) i)).
Proof.
  intros Hmax. rewrite (buildLineOffsets_spec source Hmax).
  set (bs := elems source). set (n := newlines bs).
  split; [|split; [|split]].
  - assert (Hgen : forall a k, (a + k <= S n)%nat ->
              StronglySorted Z.lt (map (line_start bs) (seq a k))).
    { intros a k. revert a. induction k as [|k IH]; intros a Hak; simpl.
      - constructor.
      - constructor; [apply IH; lia|].
        apply Forall_forall. intros x Hx.
        apply list_elem_of_In, in_map_iff in Hx.
        destruct Hx as (j & <- & Hj). apply in_seq in Hj.
        apply line_start_mono; lia. }
    apply Hgen. lia.
  - reflexivity.
  - now rewrite length_map, length_seq.
  - intros i Hi. rewrite length_map, length_seq in Hi.
    rewrite list_lookup_fmap. rewrite lookup_seq_lt by assumption. reflexivity.
Qed.

(** The table of the three-line file [local x =], [  1;], [x + x + x]:
    two newlines, three entries, the starts of the lines. *)
Lemma buildLineOffsets_invariant_witness :
  buildLineOffsets multiline_code = [0; 10; 15] /\
  newlines (elems multiline_code) = 2%nat /\
  StronglySorted Z.lt (buildLineOffsets multiline_code) /\
  buildLineOffsets multiline_code !! 0%nat = Some 0 /\
  length (buildLineOffsets multiline_code) = S (newlines (elems multiline_code)) /\
  buildLineOffsets multiline_code !! 1%nat
    = Some (line_start (elems multiline_code) 1) /\
  buildLineOffsets multiline_code !! 2%nat
    = Some (line_start (elems multiline_code) 2) /\
  line_start (elems multiline_code) 1 = 10 /\
  line_start (elems multiline_code) 2 = 15.
Proof.
  destruct (buildLineOffsets_invariant multiline_code)
    as (Hsorted & Hzero & Hlen & Hentry).
  - vm_compute. discriminate.
  - split; [reflexivity|]. split; [reflexivity|].
    split; [exact Hsorted|]. split; [exact Hzero|]. split; [exact Hlen|].
    split; [apply Hentry; rewrite Hlen; vm_compute; lia|].
    split; [apply Hentry; rewrite Hlen; vm_compute; lia|].
    split; reflexivity.
Defined.

(** ** Name generator *)

Lemma digit_ok (d : Z) :
  0 <= d < 16 ->
  is_hex_digit (Fmt.digit d) = true /\ digit_val (Fmt.digit d) = d.
Proof.
  intros H.
  assert (Hd : d = 0 \/ d = 1 \/ d = 2 \/ d = 3 \/ d = 4 \/ d = 5 \/ d = 6 \/
               d = 7 \/ d = 8 \/ d = 9 \/ d = 10 \/ d = 11 \/ d = 12 \/
               d = 13 \/ d = 14 \/ d = 15) by lia.
  repeat (destruct Hd as [->|Hd]; [split; reflexivity|]).
  subst d. split; reflexivity.
Qed.

Lemma hex_value_app (xs ys : list ascii) :
  hex_value (xs ++ ys) =
    fold_left (fun a c => a * 16 + digit_val c) ys (hex_value xs).
Proof. unfold hex_value. apply fold_left_app. Qed.

(** With enough fuel [hex_digits] puts in front of [acc] the digits of [u],
    at least one and no more than [u] needs. *)
Lemma hex_digits_spec (fuel : nat) :
  forall (u : Z) (acc : list ascii),
    0 <= u < 16 ^ Z.of_nat fuel -> (1 <= fuel)%nat ->
    exists ds, Fmt.hex_digits fuel u acc = ds ++ acc /\
               hex_value ds = u /\
               Forall (fun c => is_hex_digit c = true) ds /\
               (1 <= length ds)%nat /\
               (forall k : nat, (1 <= k)%nat -> u < 16 ^ Z.of_nat k ->
                                (length ds <= k)%nat).
Proof.
  induction fuel as [|fuel IH]; intros u acc Hu Hfuel; [lia|].
  simpl Fmt.hex_digits. destruct (Z.leb_spec 16 u) as [Hge|Hlt].
  - assert (Hf : (1 <= fuel)%nat).
    { destruct fuel; [simpl in Hu; lia|lia]. }
    assert (Hdiv : Z.shiftr u 4 = u / 16) by (now rewrite Z.shiftr_div_pow2).
    assert (Hmod : Z.land u 15 = u mod 16) by (apply (Z.land_ones u 4); lia).
    assert (Hlow : 0 <= u mod 16 < 16) by (apply Z.mod_pos_bound; lia).
    rewrite Hdiv, Hmod.
    rewrite Nat2Z.inj_succ, Z.pow_succ_r in Hu by lia.
    destruct (IH (u / 16) (Fmt.digit (u mod 16) :: acc)) as
      (ds & Heq & Hval & Hhex & Hlen1 & Hlenk);
      [split; [apply Z.div_pos; lia|apply Z.div_lt_upper_bound; lia]|exact Hf|].
    exists (ds ++ [Fmt.digit (u mod 16)]).
    destruct (digit_ok (u mod 16) Hlow) as [Hh Hv].
    split; [now rewrite Heq, <- app_assoc|].
    split; [rewrite hex_value_app, Hval; simpl; rewrite Hv;
            pose proof (Z.div_mod u 16); lia|].
    split; [apply Forall_app; split; [exact Hhex|now repeat constructor]|].
    rewrite length_app. simpl. split; [lia|].
    intros k Hk Huk. destruct k as [|k]; [lia|].
    destruct k as [|k]; [simpl in Huk; lia|].
    assert (length ds <= S k)%nat; [|lia].
    apply Hlenk; [lia|].
    rewrite Nat2Z.inj_succ, Z.pow_succ_r in Huk by lia.
    apply Z.div_lt_upper_bound; lia.
  - exists [Fmt.digit u]. destruct (digit_ok u ltac:(lia)) as [Hh Hv].
    split; [reflexivity|]. split; [unfold hex_value; simpl; exact Hv|].
    split; [now repeat constructor|]. simpl. split; [lia|]. intros; lia.
Qed.

Lemma hex_value_zeros (n : nat) (ds : list ascii) :
  hex_value (replicate n "0"%char ++ ds) = hex_value ds.
Proof.
  rewrite hex_value_app. f_equal.
  induction n as [|n IH]; [reflexivity|].
  change (replicate (S n) "0"%char) with ([ "0"%char ] ++ replicate n "0"%char).
  rewrite hex_value_app. unfold hex_value at 2. simpl fold_left at 2.
  exact IH.
Qed.

Lemma log2_fuel (u : Z) : 0 <= u -> u < 16 ^ Z.of_nat (S (Z.to_nat (Z.log2 u))).
Proof.
  intros Hu. rewrite Nat2Z.inj_succ, Z2Nat.id by apply Z.log2_nonneg.
  destruct (Z.eq_dec u 0) as [->|Hne]; [reflexivity|].
  pose proof (Z.log2_spec u ltac:(lia)) as [_ Hlt].
  eapply Z.lt_le_trans; [exact Hlt|].
  pose proof (Z.log2_nonneg u).
  apply Z.pow_le_mono_l. lia.
Qed.

Lemma Sum32a_range (data : list ascii) : 0 <= Fnv.Sum32a data < 2 ^ 32.
Proof.
  unfold Fnv.Sum32a, Fnv.Write.
  assert (H0 : 0 <= Fnv.offset32 < 2 ^ 32) by (unfold Fnv.offset32; lia).
  revert H0. generalize Fnv.offset32 as h.
  induction data as [|c data IH]; intros h Hh; [exact Hh|].
  simpl. apply IH. unfold Fnv.step. apply Z.mod_pos_bound. lia.
Qed.

Lemma sprintf_08x_spec (u : Z) :
  0 <= u < 2 ^ 32 ->
  exists ds, Fmt.sprintf_08x u = string_of_list_ascii ds /\
             length ds = 8%nat /\
             Forall (fun c => is_hex_digit c = true) ds /\
             hex_value ds = u.
Proof.
  intros Hu. unfold Fmt.sprintf_08x, Fmt.pad_zero.
  destruct (hex_digits_spec (S (Z.to_nat (Z.log2 u))) u [])
    as (ds & Heq & Hval & Hhex & Hlen1 & Hlenk);
    [split; [lia|apply log2_fuel; lia]|lia|].
  rewrite Heq, app_nil_r.
  assert (Hlen : (length ds <= 8)%nat) by (apply Hlenk; [lia|simpl; lia]).
  exists (replicate (8 - length ds) "0"%char ++ ds).
  split; [reflexivity|]. split; [rewrite length_app, length_replicate; lia|].
  split; [|rewrite hex_value_zeros; exact Hval].
  apply Forall_app. split; [|exact Hhex].
  apply Forall_replicate. reflexivity.
Qed.

Lemma is_hex_digit_ident_char (c : ascii) :
  is_hex_digit c = true -> is_ident_char c = true.
Proof.
  unfold is_hex_digit, is_ident_char, is_ident_start, is_letter.
  destruct (is_digit c); [intros _; apply orb_true_r|].
  rewrite orb_false_l, orb_false_r. intros H.
  apply andb_true_iff in H as [H1 H2].
  apply Nat.leb_le in H1, H2. apply orb_true_iff. right. apply orb_true_iff.
  right. apply andb_true_iff. split; apply Nat.leb_le; lia.
Qed.

(** C8. The prefix of a file is a function of its path alone: the character
    [_], which is no digit and may start an identifier, followed by exactly
    eight lower-case hexadecimal digits, which denote the 32-bit FNV-1a hash
    of the path and may each continue an identifier. *)
Theorem hash_shape (filename : string) :
  exists ds : list ascii,
    hash filename = String "_" (string_of_list_ascii ds) /\
    length ds = 8%nat /\
    Forall (fun c => is_hex_digit c = true) ds /\
    hex_value ds = Fnv.Sum32a (list_ascii_of_string filename) /\
    0 <= Fnv.Sum32a (list_ascii_of_string filename) < 2 ^ 32 /\
    is_digit "_" = false /\
    is_ident_start "_" = true /\
    Forall (fun c => is_ident_char c = true) ds.
Proof.
  pose proof (Sum32a_range (list_ascii_of_string filename)) as Hr.
  destruct (sprintf_08x_spec _ Hr) as (ds & Heq & Hlen & Hhex & Hval).
  exists ds. unfold hash. rewrite Heq.
  repeat (split; [first [reflexivity | assumption | apply Hr]|]).
  eapply Forall_impl; [exact Hhex|]. apply is_hex_digit_ident_char.
Qed.

(** The vectors of FNV-1a for the empty string, [a] and [foobar]; two file
    identities with different prefixes. *)
Example hash_vectors :
  hash "" = "_811c9dc5" /\ hash "a" = "_e40c292c" /\ hash "foobar" = "_bf9cf968" /\
  hash "a.conf" = "_b31f2734" /\ hash "a.conf" <> hash "b.conf".
Proof. repeat split; vm_compute; congruence. Qed.

(** ** Replacement applier *)

Lemma slice_to_elems (out : ByteSlice) (b : Z) :
  0 <= b <= Z.of_nat (len out) ->
  exists h, slice_to out b = Ret h /\ elems h = take (Z.to_nat b) (elems out).
Proof.
  intros Hb. unfold slice_to.
  rewrite slice_in_range by (unfold cap, len in *; lia).
  eexists. split; [reflexivity|]. simpl. unfold backing.
  rewrite Nat.sub_0_r. apply take_app_le. unfold len in Hb. lia.
Qed.

Lemma slice_from_elems (out : ByteSlice) (e : Z) :
  0 <= e <= Z.of_nat (len out) ->
  exists t, slice_from out e = Ret t /\ elems t = drop (Z.to_nat e) (elems out).
Proof.
  intros He. unfold slice_from.
  rewrite slice_in_range by (unfold cap, len in *; lia).
  eexists. split; [reflexivity|]. simpl. unfold backing, len in *.
  rewrite Nat2Z.id, drop_app_le by lia.
  apply take_app_length'. rewrite length_drop. reflexivity.
Qed.

Lemma rebuild_to_snoc (src : list ascii) (asc : list Replacement)
    (r : Replacement) (pos stop : nat) :
  rebuild_to src pos (asc ++ [r]) stop =
    rebuild_to src pos asc (Z.to_nat (beginOffset r))
      ++ list_ascii_of_string (newValue r)
      ++ take (stop - Z.to_nat (endOffset r)) (drop (Z.to_nat (endOffset r)) src).
Proof.
  revert pos. induction asc as [|a asc IH]; intros pos; simpl.
  - reflexivity.
  - rewrite IH, <- !app_assoc. reflexivity.
Qed.

Lemma non_overlapping_perm (l l' : list Replacement) :
  Permutation l l' -> non_overlapping l -> non_overlapping l'.
Proof.
  induction 1 as [|x l l' Hp IH|x y l|l l' l'' _ IH1 _ IH2]; simpl.
  - trivial.
  - intros [Hx Hl]. split; [now rewrite <- Hp|auto].
  - intros [Hy [Hx Hl]]. apply Forall_cons in Hy as [Hyx Hy].
    repeat split; try assumption.
    constructor; [|assumption]. destruct Hyx; [right|left]; assumption.
  - auto.
Qed.

(** *** Bytes no edit reaches *)

Lemma take_between (l : list ascii) (pos p q stop : nat) :
  (pos <= p)%nat -> (p <= q)%nat -> (q <= stop)%nat ->
  take (stop - pos) (drop pos l) =
    take (p - pos) (drop pos l) ++ take (q - p) (drop p l)
      ++ take (stop - q) (drop q l).
Proof.
  intros H1 H2 H3.
  replace (stop - pos)%nat with ((p - pos) + (stop - p))%nat by lia.
  rewrite <- take_take_drop, drop_drop.
  replace (pos + (p - pos))%nat with p by lia. f_equal.
  replace (stop - p)%nat with ((q - p) + (stop - q))%nat by lia.
  rewrite <- take_take_drop, drop_drop.
  replace (p + (q - p))%nat with q by lia. reflexivity.
Qed.

(** A stretch of the source that every edit lies before or behind is in
    the rebuilt buffer as it was. *)
Lemma rebuild_to_keeps (src : list ascii) (p q : nat) (asc : list Replacement) :
  forall pos stop : nat,
    (pos <= p)%nat -> (p <= q)%nat -> (q <= stop)%nat ->
    Forall (fun r => (Z.to_nat (endOffset r) <= p)%nat \/
                     (q <= Z.to_nat (beginOffset r))%nat) asc ->
    exists pre post,
      rebuild_to src pos asc stop = pre ++ take (q - p) (drop p src) ++ post.
Proof.
  induction asc as [|r rest IH]; intros pos stop H1 H2 H3 Hall; simpl.
  - eexists _, _. apply take_between; assumption.
  - apply Forall_cons in Hall as [[Hbefore|Hbehind] Hall].
    + destruct (IH (Z.to_nat (endOffset r)) stop Hbefore H2 H3 Hall)
        as (pre & post & ->).
      exists (take (Z.to_nat (beginOffset r) - pos) (drop pos src)
                ++ list_ascii_of_string (newValue r) ++ pre), post.
      now rewrite <- !app_assoc.
    + rewrite (take_between src pos p q (Z.to_nat (beginOffset r)))
        by assumption.
      exists (take (p - pos) (drop pos src)),
             (take (Z.to_nat (beginOffset r) - q) (drop q src)
                ++ list_ascii_of_string (newValue r)
                ++ rebuild_to src (Z.to_nat (endOffset r)) rest stop).
      now rewrite <- !app_assoc.
Qed.

Lemma Replaced_keeps (src : list ascii) (reps : list Replacement)
    (out : list ascii) (p q : nat) :
  Replaced src reps out ->
  (p <= q)%nat -> (q <= length src)%nat ->
  Forall (fun r => (Z.to_nat (endOffset r) <= p)%nat \/
                   (q <= Z.to_nat (beginOffset r))%nat) reps ->
  exists pre post, out = pre ++ take (q - p) (drop p src) ++ post.
Proof.
  intros (asc & Hperm & _ & ->) H1 H2 Hall. unfold rebuild.
  apply rebuild_to_keeps; [lia|assumption|assumption|].
  now rewrite Hperm.
Qed.

Lemma StronglySorted_reverse_flip {A : Type} (R : A -> A -> Prop) (l : list A) :
  StronglySorted (fun a b => R b a) l -> StronglySorted R (reverse l).
Proof.
  induction 1 as [|x l Hl IH Hx]; [constructor|].
  rewrite reverse_cons. apply StronglySorted_app_2.
  - intros x1 x2 Hx1 Hx2. apply list_elem_of_singleton in Hx2 as ->.
    rewrite elem_of_reverse in Hx1.
    exact (proj1 (Forall_forall _ _) Hx x1 Hx1).
  - exact IH.
  - repeat constructor.
Qed.

Lemma NoDup_map_elem_eq {A B : Type} (f : A -> B) (l : list A) (x y : A) :
  NoDup (map f l) -> x ∈ l -> y ∈ l -> f x = f y -> x = y.
Proof.
  induction l as [|a l IH]; intros Hnd Hx Hy Hf; [inversion Hx|].
  simpl in Hnd. apply NoDup_cons in Hnd as [Hnin Hnd].
  apply elem_of_cons in Hx as [->|Hx]; apply elem_of_cons in Hy as [->|Hy].
  - reflexivity.
  - exfalso. apply Hnin. rewrite Hf. apply list_elem_of_fmap. eauto.
  - exfalso. apply Hnin. rewrite <- Hf. apply list_elem_of_fmap. eauto.
  - auto.
Qed.

Section Applier.

Variable newcap : nat -> nat -> nat.
Variable sort_Slice :
  (Replacement -> Replacement -> bool) -> list Replacement -> list Replacement.

(** What [sort.Slice] promises for the closure [less]: the same edits, none
    with a larger begin offset behind one with a smaller. *)
Hypothesis sort_Slice_perm :
  forall l, Permutation (sort_Slice less l) l.
Hypothesis sort_Slice_sorted :
  forall l, StronglySorted (fun a b => beginOffset b <= beginOffset a)
                           (sort_Slice less l).

Lemma splice_elems (out : ByteSlice) (r : Replacement) :
  valid_edit (len out) r ->
  exists out', splice newcap out r = Ret out' /\
    elems out' = take (Z.to_nat (beginOffset r)) (elems out)
                   ++ list_ascii_of_string (newValue r)
                   ++ drop (Z.to_nat (endOffset r)) (elems out).
Proof.
  intros (H0 & H1 & H2). unfold splice.
  destruct (slice_to_elems out (beginOffset r)) as (h & -> & Hh); [lia|].
  destruct (slice_from_elems out (endOffset r)) as (t & -> & Ht); [lia|].
  eexists. split; [reflexivity|].
  rewrite !elems_append, Hh, Ht. reflexivity.
Qed.

(** The loop, on edits that each end before the ones already applied
    begin: [stop] is where the last applied edit began. *)
Lemma applyLoop_spec (src : list ascii) (desc : list Replacement) :
  forall (out : ByteSlice) (stop : nat) (suffix : list ascii),
    elems out = take stop src ++ suffix ->
    (stop <= length src)%nat ->
    Forall (valid_edit stop) desc ->
    StronglySorted (fun a b => endOffset b <= beginOffset a) desc ->
    exists out', applyLoop newcap out desc = Ret out' /\
                 elems out' = rebuild_to src 0 (reverse desc) stop ++ suffix.
Proof.
  induction desc as [|r rest IH]; intros out stop suffix Hout Hstop Hvalid Hsorted.
  - exists out. split; [reflexivity|]. simpl. now rewrite Nat.sub_0_r.
  - apply Forall_cons in Hvalid as [(H0 & H1 & H2) Hvalid].
    apply StronglySorted_inv in Hsorted as [Hsorted Hhd].
    assert (Hlen : len out = (stop + length suffix)%nat).
    { unfold len. rewrite Hout, length_app, length_take. lia. }
    destruct (splice_elems out r) as (out1 & Hs & Hout1).
    { unfold valid_edit. lia. }
    simpl applyLoop. rewrite Hs. simpl.
    set (b := Z.to_nat (beginOffset r)) in *.
    set (e := Z.to_nat (endOffset r)) in *.
    assert (Hb : (b <= e)%nat) by lia. assert (He : (e <= stop)%nat) by lia.
    destruct (IH out1 b
                (list_ascii_of_string (newValue r)
                   ++ take (stop - e) (drop e src) ++ suffix))
      as (out' & Hloop & Hout').
    + rewrite Hout1, Hout. f_equal.
      * rewrite take_app_le by (rewrite length_take; lia).
        rewrite take_take. f_equal. lia.
      * f_equal. rewrite drop_app_le by (rewrite length_take; lia).
        f_equal. rewrite take_drop_commute. do 2 f_equal. lia.
    + lia.
    + apply Forall_forall. intros x Hx.
      pose proof (proj1 (Forall_forall _ _) Hvalid x Hx) as (?&?&?).
      pose proof (proj1 (Forall_forall _ _) Hhd x Hx).
      unfold valid_edit. subst b. cbv beta in *. lia.
    + exact Hsorted.
    + exists out'. split; [exact Hloop|].
      rewrite Hout', reverse_cons, rebuild_to_snoc, <- !app_assoc. reflexivity.
Qed.

(** C10. With no pending edit the applier returns the source buffer
    itself. *)
Theorem applyReplacements_no_edits (ctx : Context) :
  replacements ctx = [] ->
  applyReplacements newcap sort_Slice ctx = Ret (source ctx).
Proof.
  intros Hnil. unfold applyReplacements. rewrite Hnil.
  pose proof (sort_Slice_perm []) as Hp.
  apply Permutation_nil_r in Hp. rewrite Hp. reflexivity.
Qed.

Lemma sorted_desc_chain (n : nat) (desc : list Replacement) :
  Forall (valid_edit n) desc ->
  non_overlapping desc ->
  NoDup (map beginOffset desc) ->
  StronglySorted (fun a b => beginOffset b <= beginOffset a) desc ->
  StronglySorted (fun a b => endOffset b <= beginOffset a) desc.
Proof.
  induction desc as [|a rest IH]; intros Hvalid Hno Hnd Hs; [constructor|].
  apply Forall_cons in Hvalid as [(Ha0 & Ha1 & Ha2) Hvalid].
  destruct Hno as [Hdisj Hno]. apply NoDup_cons in Hnd as [Hnin Hnd].
  apply StronglySorted_inv in Hs as [Hs Hhd].
  constructor; [auto|].
  apply Forall_forall. intros b Hb.
  pose proof (proj1 (Forall_forall _ _) Hdisj b Hb) as Hd.
  pose proof (proj1 (Forall_forall _ _) Hhd b Hb) as Hle. cbv beta in Hle.
  assert (Hne : beginOffset b <> beginOffset a).
  { intros Heq. apply Hnin. rewrite <- Heq.
    apply list_elem_of_fmap. exists b. split; [reflexivity|exact Hb]. }
  destruct Hd as [Hd|Hd]; [lia|exact Hd].
Qed.

(** On such edits the applier returns the rebuilt source. *)
Lemma applyReplacements_rebuilds (ctx : Context) :
  Forall (valid_edit (len (source ctx))) (replacements ctx) ->
  non_overlapping (replacements ctx) ->
  NoDup (map beginOffset (replacements ctx)) ->
  exists out : ByteSlice,
    applyReplacements newcap sort_Slice ctx = Ret out /\
    in_source_order (reverse (sort_Slice less (replacements ctx))) /\
    elems out = rebuild (elems (source ctx))
                        (reverse (sort_Slice less (replacements ctx))).
Proof.
  intros Hvalid Hno Hnd.
  set (reps := replacements ctx) in *. set (desc := sort_Slice less reps).
  pose proof (sort_Slice_perm reps) as Hperm. fold desc in Hperm.
  pose proof (sort_Slice_sorted reps) as Hsorted. fold desc in Hsorted.
  assert (Hvalid' : Forall (valid_edit (len (source ctx))) desc)
    by (now rewrite Hperm).
  assert (Hchain : StronglySorted (fun a b => endOffset b <= beginOffset a) desc).
  { apply (sorted_desc_chain (len (source ctx))); try assumption.
    - eapply non_overlapping_perm; [symmetry; exact Hperm|exact Hno].
    - assert (Hp : Permutation (map beginOffset desc) (map beginOffset reps))
        by (apply Permutation_map; exact Hperm).
      now rewrite Hp. }
  destruct (applyLoop_spec (elems (source ctx)) desc (source ctx)
              (len (source ctx)) []) as (out & Hloop & Hout).
  { unfold len. now rewrite take_ge, app_nil_r by lia. }
  { unfold len. lia. }
  { exact Hvalid'. }
  { exact Hchain. }
  rewrite app_nil_r in Hout.
  exists out. split; [exact Hloop|]. split; [|exact Hout].
  apply StronglySorted_reverse_flip. exact Hchain.
Qed.

(** C2, as the code has it. For edits with offsets valid in the source,
    sharing no byte and beginning at pairwise distinct offsets: the applier
    sorts them by begin offset descending and splices them in that order,
    each splice giving [buffer[:begin] + newText + buffer[end:]]; it returns
    a buffer, the source with the range of every edit replaced by its new
    text, and there is no other such buffer. *)
Theorem applyReplacements_correct (ctx : Context) :
  Forall (valid_edit (len (source ctx))) (replacements ctx) ->
  non_overlapping (replacements ctx) ->
  NoDup (map beginOffset (replacements ctx)) ->
  exists (desc : list Replacement) (out : ByteSlice),
    Permutation desc (replacements ctx) /\
    StronglySorted (fun a b => beginOffset b <= beginOffset a) desc /\
    applyReplacements newcap sort_Slice ctx = applyLoop newcap (source ctx) desc /\
    (forall (buffer : ByteSlice) (r : Replacement),
       valid_edit (len buffer) r ->
       exists buffer', splice newcap buffer r = Ret buffer' /\
         elems buffer' = take (Z.to_nat (beginOffset r)) (elems buffer)
                           ++ list_ascii_of_string (newValue r)
                           ++ drop (Z.to_nat (endOffset r)) (elems buffer)) /\
    applyReplacements newcap sort_Slice ctx = Ret out /\
    Replaced (elems (source ctx)) (replacements ctx) (elems out) /\
    (forall out', Replaced (elems (source ctx)) (replacements ctx) out' ->
                  out' = elems out).
Proof.
  intros Hvalid Hno Hnd.
  destruct (applyReplacements_rebuilds ctx Hvalid Hno Hnd)
    as (out & Hloop & Horder & Hout).
  set (reps := replacements ctx) in *. set (desc := sort_Slice less reps) in *.
  pose proof (sort_Slice_perm reps) as Hperm. fold desc in Hperm.
  exists desc, out.
  split; [exact Hperm|]. split; [apply sort_Slice_sorted|]. split; [reflexivity|].
  split; [intros buffer r Hr; apply splice_elems; exact Hr|].
  split; [exact Hloop|]. split.
  { exists (reverse desc). split; [|split].
    - rewrite reverse_Permutation. exact Hperm.
    - exact Horder.
    - exact Hout. }
  intros out' (asc & Hasc & Hord & ->). rewrite Hout. unfold rebuild.
  f_equal. apply (StronglySorted_unique_strong
                    (fun a b => endOffset a <= beginOffset b));
    [|exact Hord|exact Horder|now rewrite Hasc, reverse_Permutation].
  intros x1 x2 Hx1 Hx2 H12 H21.
  rewrite Hasc in Hx1. rewrite reverse_Permutation, Hperm in Hx2.
  pose proof (proj1 (Forall_forall _ _) Hvalid x1 Hx1) as (?&?&?).
  pose proof (proj1 (Forall_forall _ _) Hvalid x2 Hx2) as (?&?&?).
  apply (NoDup_map_elem_eq beginOffset reps); [assumption..|lia].
Qed.

(** Bytes of the source that every edit lies before or behind are in the
    result of the applier as they were. *)
Lemma applyReplacements_keeps (ctx : Context) (out : ByteSlice) (p q : nat) :
  Forall (valid_edit (len (source ctx))) (replacements ctx) ->
  non_overlapping (replacements ctx) ->
  NoDup (map beginOffset (replacements ctx)) ->
  applyReplacements newcap sort_Slice ctx = Ret out ->
  (p <= q)%nat -> (q <= len (source ctx))%nat ->
  Forall (fun r => (Z.to_nat (endOffset r) <= p)%nat \/
                   (q <= Z.to_nat (beginOffset r))%nat) (replacements ctx) ->
  exists pre post,
    elems out = pre ++ take (q - p) (drop p (elems (source ctx))) ++ post.
Proof.
  intros Hvalid Hno Hnd Hout Hpq Hq Hall.
  destruct (applyReplacements_rebuilds ctx Hvalid Hno Hnd)
    as (out0 & Hout0 & _ & Helems).
  rewrite Hout in Hout0. injection Hout0 as <-. rewrite Helems.
  apply rebuild_to_keeps; [lia|assumption|assumption|].
  now rewrite reverse_Permutation, sort_Slice_perm.
Qed.

End Applier.

(** *** [insertionSort] keeps the promise of [sort.Slice] *)

Lemma insert_left_perm (lt : Replacement -> Replacement -> bool)
    (x : Replacement) (l : list Replacement) :
  Permutation (insert_left lt x l) (x :: l).
Proof.
  induction l as [|y r IH]; simpl; [reflexivity|].
  destruct (lt x y); [|reflexivity].
  rewrite IH. apply perm_swap.
Qed.

Lemma insertionSort_perm (lt : Replacement -> Replacement -> bool)
    (l : list Replacement) :
  Permutation (insertionSort lt l) l.
Proof.
  unfold insertionSort. rewrite reverse_Permutation.
  assert (H : forall acc, Permutation
                (fold_left (fun acc x => insert_left lt x acc) l acc) (l ++ acc)).
  { induction l as [|x l IH]; intros acc; simpl; [reflexivity|].
    rewrite IH, insert_left_perm. symmetry. apply Permutation_middle. }
  rewrite H. now rewrite app_nil_r.
Qed.

Lemma insert_left_sorted (x : Replacement) (l : list Replacement) :
  StronglySorted (fun a b => beginOffset a <= beginOffset b) l ->
  StronglySorted (fun a b => beginOffset a <= beginOffset b) (insert_left less x l).
Proof.
  induction 1 as [|y r Hr IH Hy]; simpl; [repeat constructor|].
  unfold less at 1. destruct (Z.gtb_spec (beginOffset x) (beginOffset y)).
  - constructor; [exact IH|].
    rewrite insert_left_perm. constructor; [lia|exact Hy].
  - constructor; [constructor; assumption|].
    constructor; [lia|]. eapply Forall_impl; [exact Hy|].
    intros z Hz. cbv beta in *. lia.
Qed.

Lemma insertionSort_sorted (l : list Replacement) :
  StronglySorted (fun a b => beginOffset b <= beginOffset a) (insertionSort less l).
Proof.
  unfold insertionSort. apply StronglySorted_reverse_flip.
  assert (H : forall acc,
             StronglySorted (fun a b => beginOffset a <= beginOffset b) acc ->
             StronglySorted (fun a b => beginOffset a <= beginOffset b)
               (fold_left (fun acc x => insert_left less x acc) l acc)).
  { induction l as [|x l IH]; intros acc Hacc; simpl; [exact Hacc|].
    apply IH, insert_left_sorted, Hacc. }
  apply H. constructor.
Qed.

(** Closed facts about concrete edit lists. *)
Ltac solve_edits :=
  simpl;
  repeat first
    [ exact I
    | apply Forall_nil_2
    | apply Forall_cons_2
    | progress (unfold valid_edit, disjoint_edits, len; simpl)
    | lia
    | split ].

Lemma applyReplacements_no_edits_witness :
  replacements (mkContext "" [] (mkSlice (list_ascii_of_string "abcd") []) [0] ∅) = [] /\
  applyReplacements exact_cap insertionSort
      (mkContext "" [] (mkSlice (list_ascii_of_string "abcd") []) [0] ∅)
    = Ret (mkSlice (list_ascii_of_string "abcd") []).
Proof.
  split; [reflexivity|].
  apply (applyReplacements_no_edits exact_cap insertionSort
           (insertionSort_perm less)
           (mkContext "" [] (mkSlice (list_ascii_of_string "abcd") []) [0] ∅)).
  reflexivity.
Defined.

Lemma applyReplacements_correct_witness :
  Forall (valid_edit (len (source two_edits_ctx))) (replacements two_edits_ctx) /\
  non_overlapping (replacements two_edits_ctx) /\
  NoDup (map beginOffset (replacements two_edits_ctx)) /\
  exists out : ByteSlice,
    applyReplacements exact_cap insertionSort two_edits_ctx = Ret out /\
    Replaced (elems (source two_edits_ctx)) (replacements two_edits_ctx) (elems out).
Proof.
  assert (Hv : Forall (valid_edit (len (source two_edits_ctx)))
                 (replacements two_edits_ctx)).
  { solve_edits. }
  assert (Hn : non_overlapping (replacements two_edits_ctx)).
  { solve_edits. }
  assert (Hd : NoDup (map beginOffset (replacements two_edits_ctx))).
  { simpl. apply NoDup_cons. split; [|apply NoDup_singleton].
    intros H. apply list_elem_of_singleton in H. discriminate. }
  split; [exact Hv|]. split; [exact Hn|]. split; [exact Hd|].
  destruct (applyReplacements_correct exact_cap insertionSort
              (insertionSort_perm less) insertionSort_sorted
              two_edits_ctx Hv Hn Hd)
    as (desc & out & _ & _ & _ & _ & Hout & Hrep & _).
  exists out. split; [exact Hout|exact Hrep].
Defined.

(** The runtime has no part in it: whatever capacity fresh arrays get, the
    two splices give the same bytes. *)
Lemma ties_any_runtime (newcap : nat -> nat -> nat) :
  exists out, applyReplacements newcap insertionSort ties_ctx = Ret out /\
              elems out = list_ascii_of_string "Bxyz".
Proof.
  unfold applyReplacements.
  change (insertionSort less (replacements ties_ctx))
    with [mkRep 0 0 "A"; mkRep 0 1 "B"].
  cbn [applyLoop].
  destruct (splice_elems newcap (source ties_ctx) (mkRep 0 0 "A"))
    as (out1 & -> & Hout1); [solve_edits|]. cbn [mbind exec_bind bind].
  destruct (splice_elems newcap out1 (mkRep 0 1 "B"))
    as (out2 & -> & Hout2).
  { unfold valid_edit, len. rewrite Hout1. simpl. lia. }
  exists out2. split; [reflexivity|]. rewrite Hout2, Hout1. reflexivity.
Qed.

(** C2, as stated, fails when an empty edit begins where another edit
    begins: [sort.Slice] leaves the two in place, the insertion is applied
    first and shifts the bytes the second splice keeps. The source [xyz]
    becomes [Bxyz], not [AByz]. *)
Lemma applyReplacements_ties_counterexample :
  Forall (valid_edit (len (source ties_ctx))) (replacements ties_ctx) /\
  non_overlapping (replacements ties_ctx) /\
  (out ← applyReplacements exact_cap insertionSort ties_ctx;
   Ret (string_of_bytes out)) = Ret "Bxyz" /\
  rebuild (elems (source ties_ctx)) (replacements ties_ctx)
    = list_ascii_of_string "AByz" /\
  ~ Replaced (elems (source ties_ctx)) (replacements ties_ctx)
      (list_ascii_of_string "Bxyz").
Proof.
  split; [solve_edits|]. split; [solve_edits|].
  split; [reflexivity|]. split; [reflexivity|].
  intros (asc & Hperm & Hord & Heq).
  apply Permutation_sym, Permutation_length_2_inv in Hperm as [->| ->].
  - discriminate Heq.
  - apply StronglySorted_inv in Hord as [_ Hhd].
    apply Forall_cons in Hhd as [Hhd _]. simpl in Hhd. lia.
Qed.

(** ** The two passes walk the whole tree *)

Lemma Node_children_ind (P : Node -> Prop) :
  (forall node, Forall P (Children node) -> P node) -> forall node, P node.
Proof.
  intros H. fix IH 1. intros node. apply H.
  destruct node as [loc binds cs|loc id cs|loc cs]; simpl;
    induction cs as [|c cs IHcs]; constructor; auto.
Qed.

Lemma forEach_app {A : Type} (body : Context -> A -> exec Context)
    (xs ys : list A) (ctx : Context) :
  forEach body ctx (xs ++ ys) = (ctx' ← forEach body ctx xs; forEach body ctx' ys).
Proof.
  revert ctx. induction xs as [|x xs IH]; intros ctx; simpl; [reflexivity|].
  destruct (body ctx x) as [ctx'|]; simpl; [apply IH|reflexivity].
Qed.

Lemma forEach_flat_map {A B : Type} (body : Context -> B -> exec Context)
    (walk : Context -> A -> exec Context) (items : A -> list B) (xs : list A) :
  Forall (fun x => forall ctx, walk ctx x = forEach body ctx (items x)) xs ->
  forall ctx, forEach walk ctx xs = forEach body ctx (flat_map items xs).
Proof.
  induction 1 as [|x xs Hx Hxs IH]; intros ctx; simpl; [reflexivity|].
  rewrite forEach_app, Hx.
  destruct (forEach body ctx (items x)) as [ctx'|]; simpl; [apply IH|reflexivity].
Qed.

(** The bind pass handles every bind of the tree once, in walk order. *)
Lemma collectLocalBindReplacements_walk (node : Node) :
  forall ctx, collectLocalBindReplacements ctx node
              = forEach collectBind ctx (bindsOf node).
Proof.
  induction node as [node IH] using Node_children_ind. intros ctx.
  assert (Hcs : forall ctx', forEach collectLocalBindReplacements ctx' (Children node)
                = forEach collectBind ctx' (flat_map bindsOf (Children node)))
    by (apply forEach_flat_map; exact IH).
  destruct node as [loc binds cs|loc id cs|loc cs]; simpl in *.
  - rewrite forEach_app.
    destruct (forEach collectBind ctx binds); simpl; [apply Hcs|reflexivity].
  - apply Hcs.
  - apply Hcs.
Qed.

(** The reference pass handles every variable reference once, in walk
    order. *)
Lemma collectVarReplacements_walk (node : Node) :
  forall ctx, collectVarReplacements ctx node
              = forEach (fun ctx v => collectVar ctx (fst v) (snd v)) ctx (varsOf node).
Proof.
  induction node as [node IH] using Node_children_ind. intros ctx.
  assert (Hcs : forall ctx', forEach collectVarReplacements ctx' (Children node)
                = forEach (fun ctx v => collectVar ctx (fst v) (snd v)) ctx'
                    (flat_map varsOf (Children node)))
    by (apply forEach_flat_map; exact IH).
  destruct node as [loc binds cs|loc id cs|loc cs]; simpl in *.
  - apply Hcs.
  - destruct (collectVar ctx (Var loc id cs) id); simpl; [apply Hcs|reflexivity].
  - apply Hcs.
Qed.

(** *** The example file *)

Lemma example_bind_pass :
  collectLocalBindReplacements example_ctx example_tree = Ret example_ctx1.
Proof. vm_compute. reflexivity. Qed.

Lemma example_reference_pass :
  collectVarReplacements example_ctx1 example_tree = Ret example_ctx2.
Proof. vm_compute. reflexivity. Qed.

Lemma example_plain_names : plain_names example_tree.
Proof.
  split; simpl; repeat constructor; try discriminate;
    simpl; intros H; repeat (apply elem_of_cons in H as [H|H]; [discriminate|]);
    inversion H.
Qed.

(** The bind and its reference are renamed alike. *)
Example example_rewritten :
  (out ← newSource exact_cap insertionSort "a.conf" example_code example_tree;
   Ret (string_of_bytes out))
  = Ret "local _b31f2734_x = 1; _b31f2734_x + 2".
Proof. vm_compute. reflexivity. Qed.

(** The walk knows no scopes: a reference to a parameter named like a bind
    of the file is renamed with it. *)
Example shadow_rewritten :
  (out ← newSource exact_cap insertionSort "a.conf" shadow_code shadow_tree;
   Ret (string_of_bytes out))
  = Ret "local _b31f2734_x = 1; function(x) _b31f2734_x".
Proof. vm_compute. reflexivity. Qed.

(** ** Reference pass *)

Lemma same_buffer_refl (ctx : Context) : same_buffer ctx ctx.
Proof. repeat split. Qed.

Lemma same_buffer_trans (c1 c2 c3 : Context) :
  same_buffer c1 c2 -> same_buffer c2 c3 -> same_buffer c1 c3.
Proof. unfold same_buffer. intros (?&?&?) (?&?&?). repeat split; congruence. Qed.

Lemma collectVarReplacement_same_buffer (ctx ctx' : Context)
    (n : Node) (oldName newName : string) :
  same_buffer ctx ctx' ->
  collectVarReplacement ctx' n oldName newName
    = collectVarReplacement ctx n oldName newName.
Proof.
  intros (_ & Hs & Hl). unfold collectVarReplacement. now rewrite Hs, Hl.
Qed.

Lemma collectCandidate_inv (ctx ctx' : Context) (v : Node * string) :
  collectCandidate ctx v = Ret ctx' ->
  ctx' = ctx \/
  exists rep, collectVarReplacement ctx (fst v) (snd v)
                (prefix ctx +:+ "_" +:+ snd v) = Ret (Some rep) /\
              ctx' = add_replacement ctx rep.
Proof.
  unfold collectCandidate. intros H.
  apply bind_Ret_inv in H as ([rep|] & Hr & Hk); injection Hk as <-.
  - right. exists rep. split; [exact Hr|reflexivity].
  - left. reflexivity.
Qed.

Lemma collectVar_in (ctx : Context) (n : Node) (id : string) :
  id ∈ localBinds ctx -> collectVar ctx n id = collectCandidate ctx (n, id).
Proof. intros H. unfold collectVar. now rewrite bool_decide_eq_true_2. Qed.

Lemma collectVar_notin (ctx : Context) (n : Node) (id : string) :
  id ∉ localBinds ctx -> collectVar ctx n id = Ret ctx.
Proof. intros H. unfold collectVar. now rewrite bool_decide_eq_false_2. Qed.

(** The references the walk meets are candidates exactly when their text is
    in the rename set the pass starts with. *)
Lemma forEach_collectVar_filter (vs : list (Node * string)) :
  forall ctx,
    forEach (fun ctx v => collectVar ctx (fst v) (snd v)) ctx vs
    = forEach collectCandidate ctx (filter (fun v => snd v ∈ localBinds ctx) vs).
Proof.
  induction vs as [|[n id] vs IH]; intros ctx; [reflexivity|].
  simpl forEach at 1. destruct (decide (id ∈ localBinds ctx)) as [Hin|Hnin].
  - rewrite filter_cons_True by exact Hin. simpl.
    rewrite collectVar_in by exact Hin.
    destruct (collectCandidate ctx (n, id)) as [ctx'|] eqn:Hc; [|reflexivity].
    simpl. rewrite IH.
    apply collectCandidate_inv in Hc as [->|(rep & _ & ->)]; reflexivity.
  - rewrite filter_cons_False by exact Hnin.
    rewrite collectVar_notin by exact Hnin. simpl. apply IH.
Qed.

(** The edits a run of candidates adds. *)
Lemma forEach_collectCandidate_added (vs : list (Node * string)) :
  forall ctx ctx',
    forEach collectCandidate ctx vs = Ret ctx' ->
    localBinds ctx' = localBinds ctx /\ same_buffer ctx ctx' /\
    exists added,
      replacements ctx' = replacements ctx ++ added /\
      Forall (fun r => exists n id,
                (n, id) ∈ vs /\
                collectVarReplacement ctx n id (prefix ctx +:+ "_" +:+ id)
                  = Ret (Some r)) added.
Proof.
  induction vs as [|v vs IH]; intros ctx ctx' H; simpl in H.
  - injection H as <-. split; [reflexivity|]. split; [apply same_buffer_refl|].
    exists []. split; [now rewrite app_nil_r|constructor].
  - apply bind_Ret_inv in H as (ctx1 & Hc & Hrest).
    destruct (IH _ _ Hrest) as (Hlb & Hsb & added & Hadd & Hall).
    assert (Hstep : localBinds ctx1 = localBinds ctx /\ same_buffer ctx ctx1 /\
              exists first, replacements ctx1 = replacements ctx ++ first /\
                Forall (fun r => collectVarReplacement ctx (fst v) (snd v)
                          (prefix ctx +:+ "_" +:+ snd v) = Ret (Some r)) first).
    { apply collectCandidate_inv in Hc as [->|(rep & Hrep & ->)].
      - split; [reflexivity|]. split; [apply same_buffer_refl|].
        exists []. split; [now rewrite app_nil_r|constructor].
      - split; [reflexivity|]. split; [repeat split|].
        exists [rep]. split; [reflexivity|]. repeat constructor. exact Hrep. }
    destruct Hstep as (Hlb1 & Hsb1 & first & Hfirst & Hfirst_all).
    split; [congruence|]. split; [eapply same_buffer_trans; eassumption|].
    exists (first ++ added). split; [now rewrite Hadd, Hfirst, app_assoc|].
    apply Forall_app. split.
    + eapply Forall_impl; [exact Hfirst_all|]. intros r Hr.
      exists (fst v), (snd v). split; [destruct v; left|exact Hr].
    + eapply Forall_impl; [exact Hall|]. intros r (n & id & Hin & Hr).
      exists n, id. split; [now right|].
      rewrite (collectVarReplacement_same_buffer ctx ctx1) in Hr by exact Hsb1.
      destruct Hsb1 as (Hp & _). now rewrite Hp in Hr.
Qed.

(** *** What a candidate adds *)

Lemma String_length_bytes (s : string) :
  String.length s = length (list_ascii_of_string s).
Proof. induction s; simpl; congruence. Qed.

Lemma total_growth_perm (l l' : list Replacement) :
  Permutation l l' -> total_growth l = total_growth l'.
Proof.
  induction 1 as [|x l l' _ IH|x y l|l l' l'' _ IH1 _ IH2]; simpl; lia.
Qed.

Lemma varResult_same_buffer (ctx c : Context) (v : Node * string) :
  same_buffer ctx c -> varResult c v = varResult ctx v.
Proof.
  intros (Hp & Hs & Hl). unfold varResult, collectVarReplacement.
  now rewrite Hp, Hs, Hl.
Qed.

Lemma slice_Panic_iff (s : ByteSlice) (lo hi : Z) :
  slice s lo hi = Panic <-> ~ (0 <= lo /\ lo <= hi /\ hi <= Z.of_nat (cap s)).
Proof.
  split.
  - intros H (H0 & H1 & H2). rewrite slice_in_range in H by lia. discriminate.
  - intros H. apply slice_out_of_range. lia.
Qed.

Lemma varResult_Panic_iff (ctx : Context) (v : Node * string) :
  varResult ctx v = Panic <->
  IsSet (Loc (fst v)) = true /\ ~ in_capacity ctx (varOffsets ctx (fst v)).
Proof.
  unfold varResult, collectVarReplacement, in_capacity, varOffsets.
  cbv zeta. simpl fst at 4 5. simpl snd at 2.
  destruct (IsSet (Loc (fst v)));
    [|split; [discriminate|intros [? _]; discriminate]].
  rewrite <- slice_Panic_iff.
  destruct (slice _ _ _) as [span|]; simpl.
  - split; [|intros [_ ?]; discriminate].
    destruct (String.eqb _ _); discriminate.
  - split; [split; reflexivity|reflexivity].
Qed.

Lemma collectCandidate_unfold (c : Context) (v : Node * string) :
  collectCandidate c v =
  match varResult c v with
  | Ret (Some rep) => Ret (add_replacement c rep)
  | Ret None => Ret c
  | Panic => Panic
  end.
Proof.
  unfold collectCandidate, varResult.
  destruct (collectVarReplacement _ _ _ _) as [[rep|]|]; reflexivity.
Qed.

(** The loop over candidates: it panics at the first candidate that does,
    and otherwise adds the edit of every accepted candidate. *)
Lemma forEach_collectCandidate_outcome (ctx : Context) (vs : list (Node * string)) :
  forall c, same_buffer ctx c ->
    match forEach collectCandidate c vs with
    | Panic => exists v, v ∈ vs /\ varResult ctx v = Panic
    | Ret c' =>
        same_buffer ctx c' /\ localBinds c' = localBinds c /\
        Forall (fun v => varResult ctx v <> Panic) vs /\
        replacements c' = replacements c ++ omap (fun v => edit_of (varResult ctx v)) vs
    end.
Proof.
  induction vs as [|v vs IH]; intros c Hc.
  - simpl. split; [exact Hc|]. split; [reflexivity|]. split; [constructor|].
    now rewrite app_nil_r.
  - simpl forEach. rewrite collectCandidate_unfold.
    rewrite (varResult_same_buffer ctx c v Hc).
    destruct (varResult ctx v) as [[rep|]|] eqn:Hres; simpl.
    + assert (Hc1 : same_buffer ctx (add_replacement c rep)).
      { destruct Hc as (?&?&?). repeat split; assumption. }
      specialize (IH _ Hc1).
      destruct (forEach collectCandidate _ vs) as [c'|].
      * destruct IH as (Hsb & Hlb & Hall & Hreps).
        split; [exact Hsb|]. split; [exact Hlb|].
        split; [constructor; [congruence|exact Hall]|].
        rewrite Hreps. simpl. rewrite Hres. simpl. now rewrite <- app_assoc.
      * destruct IH as (v' & Hv' & Hp). exists v'. split; [now right|exact Hp].
    + specialize (IH _ Hc). destruct (forEach collectCandidate c vs) as [c'|].
      * destruct IH as (Hsb & Hlb & Hall & Hreps).
        split; [exact Hsb|]. split; [exact Hlb|].
        split; [constructor; [congruence|exact Hall]|].
        rewrite Hreps. simpl. rewrite Hres. reflexivity.
      * destruct IH as (v' & Hv' & Hp). exists v'. split; [now right|exact Hp].
    + exists v. split; [left|exact Hres].
Qed.

Lemma reference_pass_candidates (ctx : Context) (node : Node) :
  collectVarReplacements ctx node
  = forEach collectCandidate ctx
      (filter (fun v => snd v ∈ localBinds ctx) (varsOf node)).
Proof. rewrite collectVarReplacements_walk. apply forEach_collectVar_filter. Qed.

(** What the reference pass leaves when it returns. *)
Lemma reference_pass_returns (ctx ctx2 : Context) (node : Node) :
  collectVarReplacements ctx node = Ret ctx2 ->
  same_buffer ctx ctx2 /\ localBinds ctx2 = localBinds ctx /\
  replacements ctx2
    = replacements ctx ++
      omap (fun v => edit_of (varResult ctx v))
           (filter (fun v => snd v ∈ localBinds ctx) (varsOf node)).
Proof.
  rewrite reference_pass_candidates. intros H.
  pose proof (forEach_collectCandidate_outcome ctx
                (filter (fun v => snd v ∈ localBinds ctx) (varsOf node)) ctx
                (same_buffer_refl ctx)) as Hout.
  rewrite H in Hout. destruct Hout as (Hsb & Hlb & _ & Hreps).
  split; [exact Hsb|]. split; [exact Hlb|exact Hreps].
Qed.

Lemma filter_none {A : Type} (P : A -> Prop) `{!forall x, Decision (P x)}
    (l : list A) :
  Forall (fun x => ~ P x) l -> filter P l = [].
Proof.
  induction 1 as [|x l Hx _ IH]; [reflexivity|].
  rewrite filter_cons_False by exact Hx. exact IH.
Qed.

(** A stretch [p, q) of the source that every edit lies before or behind
    stands in the rebuilt buffer as it was, moved by what the edits before
    it add. *)
Lemma rebuild_to_untouched (src : list ascii) (p q : nat) (asc : list Replacement) :
  forall pos stop : nat,
    (pos <= p)%nat -> (p <= q)%nat -> (q <= stop)%nat -> (stop <= length src)%nat ->
    in_source_order asc ->
    Forall (valid_edit stop) asc ->
    Forall (fun r => Z.of_nat pos <= beginOffset r) asc ->
    Forall (fun r => endOffset r <= Z.of_nat p \/ Z.of_nat q <= beginOffset r) asc ->
    exists pre post,
      rebuild_to src pos asc stop = pre ++ take (q - p) (drop p src) ++ post /\
      Z.of_nat (length pre)
      = Z.of_nat p - Z.of_nat pos
        + total_growth (filter (fun r => endOffset r <= Z.of_nat p) asc).
Proof.
  induction asc as [|r rest IH];
    intros pos stop Hpos Hpq Hq Hstop Hord Hvalid Hfrom Hall; simpl rebuild_to.
  - exists (take (p - pos) (drop pos src)), (take (stop - q) (drop q src)).
    split; [apply take_between; assumption|].
    rewrite length_take, length_drop. simpl. lia.
  - apply StronglySorted_inv in Hord as [Hord Hhd].
    apply Forall_cons in Hvalid as [(H0 & H1 & H2) Hvalid].
    apply Forall_cons in Hfrom as [Hb Hfrom].
    apply Forall_cons in Hall as [Hr Hall].
    assert (Hnext : Forall (fun r' => endOffset r <= beginOffset r') rest)
      by (eapply Forall_impl; [exact Hhd|]; intros r' Hr'; exact Hr').
    destruct (decide (endOffset r <= Z.of_nat p)) as [Hbefore|Hbehind].
    + rewrite filter_cons_True by exact Hbefore.
      destruct (IH (Z.to_nat (endOffset r)) stop) as (pre & post & Heq & Hlen);
        try assumption; try lia.
      { eapply Forall_impl; [exact Hnext|]. intros r' Hr'. cbv beta in *. lia. }
      exists (take (Z.to_nat (beginOffset r) - pos) (drop pos src)
                ++ list_ascii_of_string (newValue r) ++ pre), post.
      split; [rewrite Heq, <- !app_assoc; reflexivity|].
      rewrite !length_app, length_take, length_drop, !Nat2Z.inj_add.
      simpl total_growth. unfold growth at 1, strlen.
      rewrite (String_length_bytes (newValue r)). lia.
    + destruct Hr as [Hr|Hr]; [contradiction|].
      rewrite filter_cons_False by exact Hbehind.
      rewrite filter_none.
      2:{ apply Forall_forall. intros r' Hr'.
          pose proof (proj1 (Forall_forall _ _) Hnext r' Hr') as Hn.
          pose proof (proj1 (Forall_forall _ _) Hvalid r' Hr') as (_ & Hv & _).
          cbv beta in *. lia. }
      exists (take (p - pos) (drop pos src)),
             (take (Z.to_nat (beginOffset r) - q) (drop q src)
                ++ list_ascii_of_string (newValue r)
                ++ rebuild_to src (Z.to_nat (endOffset r)) rest stop).
      split.
      * rewrite (take_between src pos p q (Z.to_nat (beginOffset r))) by lia.
        rewrite <- !app_assoc. reflexivity.
      * rewrite length_take, length_drop. simpl. lia.
Qed.

Section ReferencePass.

Variable newcap : nat -> nat -> nat.
Variable sort_Slice :
  (Replacement -> Replacement -> bool) -> list Replacement -> list Replacement.
Hypothesis sort_Slice_perm :
  forall l, Permutation (sort_Slice less l) l.
Hypothesis sort_Slice_sorted :
  forall l, StronglySorted (fun a b => beginOffset b <= beginOffset a)
                           (sort_Slice less l).

(** In the output of the applier a stretch of the source that no edit
    reaches stands at its offset plus what the edits before it add. *)
Lemma applyReplacements_untouched (ctx : Context) (out : ByteSlice) (p q : nat) :
  Forall (valid_edit (len (source ctx))) (replacements ctx) ->
  non_overlapping (replacements ctx) ->
  NoDup (map beginOffset (replacements ctx)) ->
  applyReplacements newcap sort_Slice ctx = Ret out ->
  (p <= q)%nat -> (q <= len (source ctx))%nat ->
  Forall (fun r => endOffset r <= Z.of_nat p \/ Z.of_nat q <= beginOffset r)
         (replacements ctx) ->
  take (q - p)
       (drop (Z.to_nat (Z.of_nat p
                        + total_growth (filter (fun r => endOffset r <= Z.of_nat p)
                                               (replacements ctx))))
             (elems out))
  = take (q - p) (drop p (elems (source ctx))).
Proof.
  intros Hvalid Hno Hnd Hout Hpq Hq Hall.
  destruct (applyReplacements_rebuilds newcap sort_Slice sort_Slice_perm
              sort_Slice_sorted ctx Hvalid Hno Hnd) as (out0 & Hout0 & Hord & Hel).
  rewrite Hout in Hout0. injection Hout0 as <-.
  assert (Hperm : Permutation (reverse (sort_Slice less (replacements ctx)))
                              (replacements ctx))
    by (rewrite reverse_Permutation; apply sort_Slice_perm).
  unfold len in Hq.
  destruct (rebuild_to_untouched (elems (source ctx)) p q
              (reverse (sort_Slice less (replacements ctx))) 0
              (length (elems (source ctx))))
    as (pre & post & Heq & Hlen); try lia; try assumption.
  - rewrite Hperm. exact Hvalid.
  - rewrite Hperm. eapply Forall_impl; [exact Hvalid|].
    intros r (H0 & _). simpl. exact H0.
  - rewrite Hperm. exact Hall.
  - assert (Hf : Permutation
                   (filter (fun r => endOffset r <= Z.of_nat p)
                           (reverse (sort_Slice less (replacements ctx))))
                   (filter (fun r => endOffset r <= Z.of_nat p) (replacements ctx)))
      by (now rewrite Hperm).
    rewrite (total_growth_perm _ _ Hf) in Hlen.
    rewrite Hel. unfold rebuild. rewrite Heq.
    rewrite drop_app_length' by lia.
    apply take_app_length'. rewrite length_take, length_drop. lia.
Qed.

(** C5. In the reference pass a variable reference is a candidate exactly
    when its identifier is in the rename set the pass starts with (the set
    the bind pass has left), wherever in the tree it stands.
    - Only a candidate is resolved: the pass panics exactly when some
      reference in the set has a set location and a span outside the
      capacity of the buffer, and when no reference of the tree is in the
      set it returns the context as it was.
    - When the pass returns it has kept the rename set and the buffer, and
      the edits it has appended are, in walk order, exactly the edits
      [collectVarReplacement] returns for the references in the set: an
      edit is appended exactly when it is the edit of such a reference, so
      a reference outside the set yields none.
    - In the output of the applier on the edits the pass leaves (valid,
      sharing no byte, at distinct offsets) every stretch of the source
      that no edit reaches, the text of a reference outside the set among
      them, stands with the same bytes at its offset moved by what the
      edits before it add. *)
Theorem collectVarReplacements_candidates (ctx : Context) (node : Node) :
  (collectVarReplacements ctx node = Panic <->
     exists v, v ∈ varsOf node /\ snd v ∈ localBinds ctx /\
               IsSet (Loc (fst v)) = true /\
               ~ in_capacity ctx (varOffsets ctx (fst v))) /\
  (Forall (fun v => snd v ∉ localBinds ctx) (varsOf node) ->
     collectVarReplacements ctx node = Ret ctx) /\
  (forall ctx', collectVarReplacements ctx node = Ret ctx' ->
     localBinds ctx' = localBinds ctx /\ same_buffer ctx ctx' /\
     replacements ctx'
       = replacements ctx ++
         omap (fun v => edit_of (varResult ctx v))
              (filter (fun v => snd v ∈ localBinds ctx) (varsOf node)) /\
     (forall r,
        r ∈ omap (fun v => edit_of (varResult ctx v))
                 (filter (fun v => snd v ∈ localBinds ctx) (varsOf node)) <->
        exists v, v ∈ varsOf node /\ snd v ∈ localBinds ctx /\
                  collectVarReplacement ctx (fst v) (snd v)
                    (prefix ctx +:+ "_" +:+ snd v) = Ret (Some r)) /\
     (forall out (p q : nat),
        applyReplacements newcap sort_Slice ctx' = Ret out ->
        Forall (valid_edit (len (source ctx'))) (replacements ctx') ->
        non_overlapping (replacements ctx') ->
        NoDup (map beginOffset (replacements ctx')) ->
        (p <= q)%nat -> (q <= len (source ctx'))%nat ->
        Forall (fun r => endOffset r <= Z.of_nat p \/ Z.of_nat q <= beginOffset r)
               (replacements ctx') ->
        take (q - p)
             (drop (Z.to_nat
                      (Z.of_nat p
                       + total_growth (filter (fun r => endOffset r <= Z.of_nat p)
                                              (replacements ctx'))))
                   (elems out))
        = take (q - p) (drop p (elems (source ctx'))))).
Proof.
  set (cands := filter (fun v => snd v ∈ localBinds ctx) (varsOf node)).
  pose proof (forEach_collectCandidate_outcome ctx cands ctx
                (same_buffer_refl ctx)) as Hloop.
  rewrite reference_pass_candidates. fold cands.
  split; [|split].
  - destruct (forEach collectCandidate ctx cands) as [c'|].
    + destruct Hloop as (_ & _ & Hall & _).
      split; [discriminate|]. intros (v & Hv & Hin & Hset & Hcap).
      exfalso. apply (proj1 (Forall_forall _ _) Hall v).
      * apply list_elem_of_filter. split; assumption.
      * apply varResult_Panic_iff. split; assumption.
    + destruct Hloop as (v & Hv & Hp). split; [|reflexivity]. intros _.
      apply list_elem_of_filter in Hv as [Hin Hv].
      apply varResult_Panic_iff in Hp as [Hset Hcap].
      exists v. repeat split; assumption.
  - intros Hnone. unfold cands. rewrite filter_none; [reflexivity|exact Hnone].
  - intros ctx' Hret. rewrite Hret in Hloop.
    destruct Hloop as (Hsb & Hlb & _ & Hreps).
    split; [exact Hlb|]. split; [exact Hsb|]. split; [exact Hreps|]. split.
    + intros r. rewrite list_elem_of_omap. split.
      * intros (v & Hv & Hr). apply list_elem_of_filter in Hv as [Hin Hv].
        exists v. split; [exact Hv|]. split; [exact Hin|].
        unfold varResult in Hr.
        destruct (collectVarReplacement ctx (fst v) (snd v) _) as [[r'|]|];
          simpl in Hr; congruence.
      * intros (v & Hv & Hin & Hr). exists v.
        split; [apply list_elem_of_filter; split; assumption|].
        unfold varResult. now rewrite Hr.
    + intros out p q Hout Hvalid Hno Hnd Hpq Hq Hall.
      apply applyReplacements_untouched; assumption.
Qed.

End ReferencePass.

Lemma collectVarReplacements_candidates_witness :
  collectLocalBindReplacements mixed_ctx mixed_tree = Ret mixed_ctx1 /\
  exists ctx2 out,
    collectVarReplacements mixed_ctx1 mixed_tree = Ret ctx2 /\
    localBinds ctx2 = localBinds mixed_ctx1 /\
    replacements ctx2 = replacements mixed_ctx1 ++ [mkRep 13 14 "_b31f2734_x"] /\
    applyReplacements exact_cap insertionSort ctx2 = Ret out /\
    string_of_bytes out = "local _b31f2734_x = 1; _b31f2734_x + y" /\
    take (18 - 17) (drop 37 (elems out)) = take (18 - 17) (drop 17 (elems mixed_code)) /\
    collectVarReplacements mixed_ctx (Var (loc 1 18 1 19) "y" []) = Ret mixed_ctx /\
    collectVarReplacements mixed_ctx1 (Var (loc 1 14 1 600) "x" []) = Panic.
Proof.
  split; [vm_compute; reflexivity|].
  destruct (collectVarReplacements mixed_ctx1 mixed_tree) as [ctx2|] eqn:Hpass;
    [|vm_compute in Hpass; discriminate Hpass].
  destruct (applyReplacements exact_cap insertionSort ctx2) as [out|] eqn:Hout;
    [|injection Hpass as <-; vm_compute in Hout; discriminate Hout].
  exists ctx2, out.
  destruct (collectVarReplacements_candidates exact_cap insertionSort
              (insertionSort_perm less) insertionSort_sorted
              mixed_ctx1 mixed_tree) as (_ & _ & Hret).
  destruct (Hret ctx2) as (Hlb & Hsb & Hreps & _ & Hkeeps);
    [exact Hpass|].
  assert (Hlist : replacements ctx2
                  = replacements mixed_ctx1 ++ [mkRep 13 14 "_b31f2734_x"]).
  { rewrite Hreps. vm_compute. reflexivity. }
  split; [reflexivity|]. split; [exact Hlb|]. split; [exact Hlist|].
  split; [exact Hout|].
  assert (Hsrc : source ctx2 = mixed_code) by (destruct Hsb as (_ & H & _); exact H).
  split; [|split; [|split]].
  - injection Hpass as <-. vm_compute in Hout. injection Hout as <-.
    vm_compute. reflexivity.
  - specialize (Hkeeps out 17%nat 18%nat Hout).
    rewrite Hlist, Hsrc in Hkeeps. apply Hkeeps.
    + solve_edits.
    + solve_edits.
    + simpl. apply NoDup_cons. split; [|apply NoDup_singleton].
      intros H. apply list_elem_of_singleton in H. discriminate.
    + lia.
    + vm_compute. lia.
    + repeat constructor; simpl; lia.
  - apply (collectVarReplacements_candidates exact_cap insertionSort
             (insertionSort_perm less) insertionSort_sorted
             mixed_ctx (Var (loc 1 18 1 19) "y" [])).
    simpl. repeat constructor. apply not_elem_of_empty.
  - apply (proj1 (collectVarReplacements_candidates exact_cap insertionSort
                    (insertionSort_perm less) insertionSort_sorted
                    mixed_ctx1 (Var (loc 1 14 1 600) "x" []))).
    exists (Var (loc 1 14 1 600) "x" [], "x").
    split; [left|]. split; [simpl; set_solver|].
    split; [reflexivity|]. unfold in_capacity. vm_compute.
    intros (_ & _ & H). apply H. reflexivity.
Defined.

(** ** Accepted edits *)

Lemma span_eqb_bytes (l : list ascii) (name : string) :
  String.eqb (string_of_list_ascii l) name = true -> l = list_ascii_of_string name.
Proof.
  intros H. apply String.eqb_eq in H. rewrite <- H.
  symmetry. apply list_ascii_of_string_of_list_ascii.
Qed.

(** What the verification of a span establishes. *)
Lemma verified_span (src : ByteSlice) (b e : Z) (span : ByteSlice) (oldName : string) :
  slice src b e = Ret span ->
  String.eqb (string_of_bytes span) oldName = true ->
  span_matches (backing src) b e oldName.
Proof.
  intros Hs Heq. apply slice_Ret_inv in Hs as (Hbe & Hcap & Hel & _).
  unfold span_matches, backing, cap in *. rewrite length_app.
  repeat split; try lia.
  rewrite <- Hel. apply span_eqb_bytes. exact Heq.
Qed.

Lemma collectVarReplacement_accepted (ctx : Context) (n : Node)
    (oldName newName : string) (r : Replacement) :
  collectVarReplacement ctx n oldName newName = Ret (Some r) ->
  IsSet (Loc n) = true /\
  r = mkRep (lineColToOffset (lineOffsets ctx) (int_sub (Line (Begin_ (Loc n))) 1)
                             (int_sub (Column (Begin_ (Loc n))) 1))
            (lineColToOffset (lineOffsets ctx) (int_sub (Line (End_ (Loc n))) 1)
                             (int_sub (Column (End_ (Loc n))) 1))
            newName /\
  span_matches (backing (source ctx)) (beginOffset r) (endOffset r) oldName.
Proof.
  unfold collectVarReplacement. cbv zeta. intros H.
  destruct (IsSet (Loc n)); [|discriminate]. split; [reflexivity|].
  apply bind_Ret_inv in H as (span & Hs & Hk).
  destruct (String.eqb _ _) eqn:Heq; [|discriminate].
  injection Hk as <-. split; [reflexivity|].
  simpl. eapply verified_span; eassumption.
Qed.

Lemma collectLocalBindReplacement_accepted (ctx : Context) (node : LocalBind)
    (oldName newName : string) (r : Replacement) :
  collectLocalBindReplacement ctx node oldName newName = Ret (Some r) ->
  IsSet (LocRange node) = true /\
  r = mkRep (lineColToOffset (lineOffsets ctx)
               (int_sub (Line (Begin_ (LocRange node))) 1)
               (int_sub (Column (Begin_ (LocRange node))) 1))
            (lineColToOffset (lineOffsets ctx)
               (int_sub (Line (End_ (LocRange node))) 1)
               (int_sub (int_add (Column (Begin_ (LocRange node))) (strlen oldName)) 1))
            newName /\
  span_matches (backing (source ctx)) (beginOffset r) (endOffset r) oldName.
Proof.
  unfold collectLocalBindReplacement. intros H.
  destruct (IsSet (LocRange node)); [|discriminate]. split; [reflexivity|].
  apply bind_Ret_inv in H as (span & Hs & Hk).
  destruct (String.eqb _ _) eqn:Heq; [|discriminate].
  injection Hk as <-. split; [reflexivity|].
  simpl. eapply verified_span; eassumption.
Qed.

(** Behind the length of the buffer a span meets the spare capacity: when
    that holds NUL bytes only, no plain name can end there. *)
Lemma span_within_len (src : ByteSlice) (b e : Z) (name : string) :
  Forall (fun c => c = NUL) (spare src) ->
  plain_name name ->
  span_matches (backing src) b e name ->
  span_matches (elems src) b e name.
Proof.
  intros Hnul [Hne Hnonul] (Hb & Hbe & Hcap & Hspan).
  unfold span_matches, backing in *. rewrite length_app in Hcap.
  set (bn := Z.to_nat b) in *. set (en := Z.to_nat e) in *.
  assert (Hben : (bn <= en)%nat) by lia.
  assert (Hcapn : (en <= length (elems src) + length (spare src))%nat) by lia.
  assert (Hlen : length (list_ascii_of_string name) = (en - bn)%nat).
  { rewrite <- Hspan, length_take, length_drop, length_app. lia. }
  assert (Hpos : (0 < en - bn)%nat).
  { destruct name; [contradiction|]. simpl in Hlen. lia. }
  destruct (le_lt_dec en (length (elems src))) as [Hle|Hgt].
  - repeat split; [lia..|]. rewrite <- Hspan.
    rewrite drop_app_le by lia. symmetry. apply take_app_le.
    rewrite length_drop. lia.
  - exfalso. apply Hnonul.
    assert (Hlast : list_ascii_of_string name !! (en - bn - 1)%nat = Some NUL).
    { rewrite <- Hspan. rewrite lookup_take_lt by lia. rewrite lookup_drop.
      replace (bn + (en - bn - 1))%nat
        with (length (elems src) + (en - 1 - length (elems src)))%nat by lia.
      rewrite lookup_app_r by lia.
      replace (length (elems src) + (en - 1 - length (elems src))
               - length (elems src))%nat
        with (en - 1 - length (elems src))%nat by lia.
      destruct (spare src !! (en - 1 - length (elems src))%nat) as [c|] eqn:Hc.
      - f_equal. apply (proj1 (Forall_forall _ _) Hnul).
        eapply list_elem_of_lookup_2. exact Hc.
      - apply lookup_ge_None in Hc. lia. }
    eapply list_elem_of_lookup_2. exact Hlast.
Qed.

Lemma forEach_invariant {A : Type} (P : Context -> Prop) (Q : A -> Prop)
    (body : Context -> A -> exec Context) (xs : list A) :
  (forall ctx x ctx', Q x -> P ctx -> body ctx x = Ret ctx' -> P ctx') ->
  Forall Q xs ->
  forall ctx ctx', P ctx -> forEach body ctx xs = Ret ctx' -> P ctx'.
Proof.
  intros Hstep. induction 1 as [|x xs Hx _ IH]; intros ctx ctx' HP H; simpl in H.
  - now injection H as <-.
  - apply bind_Ret_inv in H as (ctx1 & Hb & Hrest).
    eapply IH; [|exact Hrest]. eapply Hstep; eassumption.
Qed.

Lemma collectBind_inv (ctx ctx' : Context) (b : LocalBind) :
  collectBind ctx b = Ret ctx' ->
  ctx' = ctx \/
  exists rep, collectLocalBindReplacement ctx b (Variable_ b)
                (prefix ctx +:+ "_" +:+ Variable_ b) = Ret (Some rep) /\
              ctx' = add_localBind (add_replacement ctx rep) (Variable_ b).
Proof.
  unfold collectBind. intros H.
  apply bind_Ret_inv in H as ([rep|] & Hr & Hk); injection Hk as <-.
  - right. exists rep. split; [exact Hr|reflexivity].
  - left. reflexivity.
Qed.

(** Both passes keep the buffer and only add edits; an added edit matches
    the bytes [arr] as soon as a verified span of a name of the tree
    matches [arr]. *)
Lemma passes_add_matching_edits (arr : list ascii) (Q : string -> Prop)
    (node : Node) (ctx ctx1 ctx2 : Context) :
  (forall b e name, Q name ->
     span_matches (backing (source ctx)) b e name -> span_matches arr b e name) ->
  Forall (fun b => Q (Variable_ b)) (bindsOf node) ->
  Forall (fun v => Q (snd v)) (varsOf node) ->
  collectLocalBindReplacements ctx node = Ret ctx1 ->
  collectVarReplacements ctx1 node = Ret ctx2 ->
  same_buffer ctx ctx2 /\
  exists added, replacements ctx2 = replacements ctx ++ added /\
                Forall (edit_matches arr (prefix ctx)) added.
Proof.
  intros Harr Hbinds Hvars H1 H2.
  set (P := fun c => same_buffer ctx c /\
                     exists added, replacements c = replacements ctx ++ added /\
                                   Forall (edit_matches arr (prefix ctx)) added).
  assert (Hadd : forall c rep name,
             P c -> Q name -> newValue rep = prefix c +:+ "_" +:+ name ->
             span_matches (backing (source c)) (beginOffset rep) (endOffset rep) name ->
             forall c', same_buffer c c' ->
                        replacements c' = replacements c ++ [rep] -> P c').
  { intros c rep name [Hc (added & Heq & Hall)] Hq Hnew Hm c' Hc' Hreps.
    split; [eapply same_buffer_trans; eassumption|].
    exists (added ++ [rep]). split; [now rewrite Hreps, Heq, app_assoc|].
    apply Forall_app. split; [exact Hall|]. repeat constructor.
    destruct Hc as (Hp & Hs & _). exists name.
    split; [now rewrite Hnew, Hp|]. apply Harr; [exact Hq|]. now rewrite <- Hs. }
  rewrite collectLocalBindReplacements_walk in H1.
  rewrite collectVarReplacements_walk in H2.
  assert (HP0 : P ctx).
  { split; [apply same_buffer_refl|]. exists []. now rewrite app_nil_r. }
  assert (HP1 : P ctx1).
  { eapply (forEach_invariant P); [|exact Hbinds|exact HP0|exact H1].
    intros c b c' Hq HP Hstep.
    apply collectBind_inv in Hstep as [->|(rep & Hrep & ->)]; [exact HP|].
    apply collectLocalBindReplacement_accepted in Hrep as (_ & Hr & Hm).
    eapply (Hadd c rep (Variable_ b)); try eassumption.
    - now rewrite Hr.
    - repeat split.
    - reflexivity. }
  eapply (forEach_invariant P); [|exact Hvars|exact HP1|exact H2].
  intros c [n id] c' Hq HP Hstep. simpl in *.
  unfold collectVar in Hstep. destruct (bool_decide _); [|now injection Hstep as <-].
  apply collectCandidate_inv in Hstep as [->|(rep & Hrep & ->)]; [exact HP|].
  simpl in Hrep.
  apply collectVarReplacement_accepted in Hrep as (_ & Hr & Hm).
  eapply (Hadd c rep id); try eassumption.
  - now rewrite Hr.
  - repeat split.
  - reflexivity.
Qed.

(** C9. On a buffer as [os.ReadFile] returns it (zero bytes only behind
    the content) and a tree with the names a lexer gives (not empty, no
    zero byte), both passes only add edits to the list, and every edit
    they add satisfies [0 <= begin <= end <= len(source)] with
    [source[begin:end]] the identifier it renames, its new text being that
    identifier behind the prefix and an underscore. When the list starts
    empty, as in [main], this holds of every edit the applier consumes. *)
Theorem accepted_edits_invariant (ctx ctx1 ctx2 : Context) (node : Node) :
  Forall (fun c => c = NUL) (spare (source ctx)) ->
  plain_names node ->
  collectLocalBindReplacements ctx node = Ret ctx1 ->
  collectVarReplacements ctx1 node = Ret ctx2 ->
  same_buffer ctx ctx2 /\
  (exists added,
     replacements ctx2 = replacements ctx ++ added /\
     Forall (fun r =>
               0 <= beginOffset r /\ beginOffset r <= endOffset r /\
               endOffset r <= Z.of_nat (len (source ctx2)) /\
               edit_matches (elems (source ctx2)) (prefix ctx2) r) added) /\
  (replacements ctx = [] ->
   Forall (fun r =>
             0 <= beginOffset r /\ beginOffset r <= endOffset r /\
             endOffset r <= Z.of_nat (len (source ctx2)) /\
             edit_matches (elems (source ctx2)) (prefix ctx2) r)
          (replacements ctx2)).
Proof.
  intros Hnul [Hb Hv] H1 H2.
  destruct (passes_add_matching_edits (elems (source ctx)) plain_name
              node ctx ctx1 ctx2) as (Hsb & added & Hadd & Hall);
    [|exact Hb|exact Hv|exact H1|exact H2|].
  { intros b e name Hname. apply span_within_len; assumption. }
  destruct Hsb as (Hp & Hs & Hl).
  assert (Hall' : Forall (fun r =>
             0 <= beginOffset r /\ beginOffset r <= endOffset r /\
             endOffset r <= Z.of_nat (len (source ctx2)) /\
             edit_matches (elems (source ctx2)) (prefix ctx2) r) added).
  { rewrite Hp, Hs. eapply Forall_impl; [exact Hall|].
    intros r Hr. pose proof Hr as (old & _ & H0 & H01 & H1' & _).
    unfold len. repeat split; assumption. }
  split; [repeat split; assumption|].
  split; [exists added; split; assumption|].
  intros Hnil. rewrite Hadd, Hnil. exact Hall'.
Qed.

Lemma accepted_edits_invariant_witness :
  collectLocalBindReplacements example_ctx example_tree = Ret example_ctx1 /\
  collectVarReplacements example_ctx1 example_tree = Ret example_ctx2 /\
  replacements example_ctx2 = [mkRep 6 7 "_b31f2734_x"; mkRep 13 14 "_b31f2734_x"] /\
  Forall (fun r =>
            0 <= beginOffset r /\ beginOffset r <= endOffset r /\
            endOffset r <= Z.of_nat (len (source example_ctx2)) /\
            edit_matches (elems (source example_ctx2)) (prefix example_ctx2) r)
         (replacements example_ctx2).
Proof.
  split; [exact example_bind_pass|]. split; [exact example_reference_pass|].
  split; [reflexivity|].
  apply (accepted_edits_invariant example_ctx example_ctx1 example_ctx2
           example_tree).
  - apply Forall_replicate. reflexivity.
  - exact example_plain_names.
  - exact example_bind_pass.
  - exact example_reference_pass.
  - reflexivity.
Defined.

(** The zero bytes behind the content are needed. On a buffer holding
    [local b=1;b] whose length is cut to 10 bytes both passes accept the
    second [b], which lies behind the length, because a slice expression
    reads up to the capacity; [os.ReadFile] returns no such buffer. *)
Lemma nonzero_spare_edit_beyond_length :
  exists ctx1 ctx2,
    collectLocalBindReplacements cut_ctx cut_tree = Ret ctx1 /\
    collectVarReplacements ctx1 cut_tree = Ret ctx2 /\
    replacements ctx2 = [mkRep 6 7 "_b31f2734_b"; mkRep 10 11 "_b31f2734_b"] /\
    len (source ctx2) = 10%nat /\
    ~ Forall (fun r => 0 <= beginOffset r /\ beginOffset r <= endOffset r /\
                       endOffset r <= Z.of_nat (len (source ctx2)))
             (replacements ctx2).
Proof.
  exists (add_localBind (add_replacement cut_ctx (mkRep 6 7 "_b31f2734_b")) "b").
  exists (add_replacement
            (add_localBind (add_replacement cut_ctx (mkRep 6 7 "_b31f2734_b")) "b")
            (mkRep 10 11 "_b31f2734_b")).
  split; [vm_compute; reflexivity|]. split; [vm_compute; reflexivity|].
  split; [reflexivity|]. split; [reflexivity|].
  intros H. apply Forall_cons in H as [_ H]. apply Forall_cons in H as [H _].
  simpl in H. unfold len in H. simpl in H. lia.
Qed.

(** ** Dropped candidates *)

(** A candidate without a location, or whose span lies in the buffer and
    does not spell its name, adds nothing, and the loop goes on with the
    same context. *)
Lemma collectLocalBindReplacement_unset (ctx : Context) (b : LocalBind)
    (oldName newName : string) :
  IsSet (LocRange b) = false ->
  collectLocalBindReplacement ctx b oldName newName = Ret None.
Proof. intros H. unfold collectLocalBindReplacement. now rewrite H. Qed.

Lemma collectVarReplacement_unset (ctx : Context) (n : Node)
    (oldName newName : string) :
  IsSet (Loc n) = false -> collectVarReplacement ctx n oldName newName = Ret None.
Proof. intros H. unfold collectVarReplacement. cbv zeta. now rewrite H. Qed.

Lemma collectVarReplacement_mismatch (ctx : Context) (n : Node)
    (oldName newName : string) (span : ByteSlice) :
  slice (source ctx)
    (lineColToOffset (lineOffsets ctx) (int_sub (Line (Begin_ (Loc n))) 1)
                     (int_sub (Column (Begin_ (Loc n))) 1))
    (lineColToOffset (lineOffsets ctx) (int_sub (Line (End_ (Loc n))) 1)
                     (int_sub (Column (End_ (Loc n))) 1)) = Ret span ->
  string_of_bytes span <> oldName ->
  collectVarReplacement ctx n oldName newName = Ret None.
Proof.
  intros Hs Hne. unfold collectVarReplacement. cbv zeta.
  destruct (IsSet (Loc n)); [|reflexivity]. rewrite Hs. simpl.
  destruct (String.eqb_spec (string_of_bytes span) oldName); [contradiction|].
  reflexivity.
Qed.

Lemma collectLocalBindReplacement_mismatch (ctx : Context) (b : LocalBind)
    (oldName newName : string) (span : ByteSlice) :
  slice (source ctx)
    (lineColToOffset (lineOffsets ctx) (int_sub (Line (Begin_ (LocRange b))) 1)
                     (int_sub (Column (Begin_ (LocRange b))) 1))
    (lineColToOffset (lineOffsets ctx) (int_sub (Line (End_ (LocRange b))) 1)
                     (int_sub (int_add (Column (Begin_ (LocRange b))) (strlen oldName)) 1))
    = Ret span ->
  string_of_bytes span <> oldName ->
  collectLocalBindReplacement ctx b oldName newName = Ret None.
Proof.
  intros Hs Hne. unfold collectLocalBindReplacement.
  destruct (IsSet (LocRange b)); [|reflexivity]. rewrite Hs. simpl.
  destruct (String.eqb_spec (string_of_bytes span) oldName); [contradiction|].
  reflexivity.
Qed.

Lemma forEach_skip {A : Type} (body : Context -> A -> exec Context)
    (ctx : Context) (x : A) (rest : list A) :
  body ctx x = Ret ctx -> forEach body ctx (x :: rest) = forEach body ctx rest.
Proof. intros H. simpl. now rewrite H. Qed.

(** ** The end of a bind *)

(** C1, at a bind whose body stands on the next line. The name [x] is the
    byte at offset 6; the end offset on the begin line is 7 and the bytes
    from 6 up to 7 are [x]. The code resolves the end column on the line
    the range of the bind ends on and gets 17; the span does not spell [x],
    the bind is dropped, and the file is returned as it was. *)
Lemma multiline_bind_not_renamed :
  lineOffsets multiline_ctx = [0; 10; 15] /\
  lineColToOffset (lineOffsets multiline_ctx) 0 7 = 7 /\
  (span ← slice (source multiline_ctx) 6 7; Ret (string_of_bytes span)) = Ret "x" /\
  lineColToOffset (lineOffsets multiline_ctx) 1 7 = 17 /\
  collectLocalBindReplacement multiline_ctx multiline_bind "x" "_b31f2734_x"
    = Ret None /\
  collectLocalBindReplacement multiline_ctx (mkBind "x" (loc 1 7 1 8)) "x" "_b31f2734_x"
    = Ret (Some (mkRep 6 7 "_b31f2734_x")) /\
  newSource exact_cap insertionSort "a.conf" multiline_code multiline_tree
    = Ret multiline_code.
Proof. repeat split; vm_compute; reflexivity. Qed.

(** ** A span outside the buffer *)

(** A span that does not lie within the capacity of the buffer makes the
    slice expression panic, before anything is compared, and the panic ends
    the loop it occurs in. *)
Lemma collectLocalBindReplacement_out_of_range (ctx : Context) (b : LocalBind)
    (oldName newName : string) :
  let beginOffset :=
    lineColToOffset (lineOffsets ctx) (int_sub (Line (Begin_ (LocRange b))) 1)
                    (int_sub (Column (Begin_ (LocRange b))) 1) in
  let endOffset :=
    lineColToOffset (lineOffsets ctx) (int_sub (Line (End_ (LocRange b))) 1)
      (int_sub (int_add (Column (Begin_ (LocRange b))) (strlen oldName)) 1) in
  IsSet (LocRange b) = true ->
  beginOffset < 0 \/ endOffset < beginOffset \/ Z.of_nat (cap (source ctx)) < endOffset ->
  collectLocalBindReplacement ctx b oldName newName = Panic.
Proof.
  intros bo eo Hset Hout. unfold collectLocalBindReplacement. cbv zeta.
  rewrite Hset. fold bo eo. now rewrite slice_out_of_range.
Qed.

Lemma collectVarReplacement_out_of_range (ctx : Context) (n : Node)
    (oldName newName : string) :
  let beginOffset :=
    lineColToOffset (lineOffsets ctx) (int_sub (Line (Begin_ (Loc n))) 1)
                    (int_sub (Column (Begin_ (Loc n))) 1) in
  let endOffset :=
    lineColToOffset (lineOffsets ctx) (int_sub (Line (End_ (Loc n))) 1)
                    (int_sub (Column (End_ (Loc n))) 1) in
  IsSet (Loc n) = true ->
  beginOffset < 0 \/ endOffset < beginOffset \/ Z.of_nat (cap (source ctx)) < endOffset ->
  collectVarReplacement ctx n oldName newName = Panic.
Proof.
  intros bo eo Hset Hout. unfold collectVarReplacement. cbv zeta.
  rewrite Hset. fold bo eo. now rewrite slice_out_of_range.
Qed.

Lemma forEach_panic {A : Type} (body : Context -> A -> exec Context)
    (ctx : Context) (x : A) (rest : list A) :
  body ctx x = Panic -> forEach body ctx (x :: rest) = Panic.
Proof. intros H. simpl. now rewrite H. Qed.

(** C4, at a bind whose span leaves the buffer. The file has 528 bytes and
    the buffer a capacity of 529; the span of the bind of [x] is resolved
    to the offsets 517 and 1041, the slice expression panics, and so do the
    bind pass and the run. *)
Lemma long_bind_aborts :
  len long_code = 528%nat /\ cap long_code = 529%nat /\
  lineOffsets long_ctx = [0; 523] /\
  lineColToOffset (lineOffsets long_ctx) 0 517 = 517 /\
  lineColToOffset (lineOffsets long_ctx) 1 518 = 1041 /\
  collectLocalBindReplacement long_ctx (mkBind "x" (loc 1 518 2 3)) "x" "_b31f2734_x"
    = Panic /\
  collectLocalBindReplacements long_ctx long_tree = Panic /\
  newSource exact_cap insertionSort "a.conf" long_code long_tree = Panic /\
  run exact_cap insertionSort "a.conf" "2024-01-01T00:00:00Z" long_code long_tree
    = Panic.
Proof. repeat split; vm_compute; reflexivity. Qed.

(** ** Two runs *)

Section Runs.

Variable newcap : nat -> nat -> nat.
Variable sort_Slice :
  (Replacement -> Replacement -> bool) -> list Replacement -> list Replacement.

Lemma header_inj (now1 now2 path : string) :
  header now1 path = header now2 path <-> now1 = now2.
Proof.
  split; [|now intros ->]. unfold header. intros H.
  apply (f_equal list_ascii_of_string) in H.
  rewrite !list_ascii_of_string_app in H.
  apply app_inv_head in H. apply app_inv_tail in H.
  now apply list_ascii_of_string_inj.
Qed.

(** C3, as the code has it. Two runs on the same bytes, file identity and
    tree either both panic, exactly when the passes or the applier do, or
    both return, and what they return is the same rewritten source behind
    the header of each run. The two outputs are the same bytes exactly
    when the two headers are, and the headers are the same exactly when
    the clock gave the two runs the same text. *)
Theorem run_twice (path now1 now2 : string) (code : ByteSlice) (node : Node) :
  (newSource newcap sort_Slice path code node = Panic /\
   run newcap sort_Slice path now1 code node = Panic /\
   run newcap sort_Slice path now2 code node = Panic) \/
  exists out : ByteSlice,
    newSource newcap sort_Slice path code node = Ret out /\
    run newcap sort_Slice path now1 code node
      = Ret (list_ascii_of_string (header now1 path) ++ elems out) /\
    run newcap sort_Slice path now2 code node
      = Ret (list_ascii_of_string (header now2 path) ++ elems out) /\
    (run newcap sort_Slice path now1 code node
       = run newcap sort_Slice path now2 code node
     <-> header now1 path = header now2 path) /\
    (header now1 path = header now2 path <-> now1 = now2).
Proof.
  unfold run. destruct (newSource newcap sort_Slice path code node) as [out|].
  - right. exists out.
    assert (Hrun : forall now,
              (out0 ← Ret out;
               Ret (elems (append newcap (bytes_of_string newcap (header now path))
                                  (elems out0))))
              = Ret (list_ascii_of_string (header now path) ++ elems out)).
    { intros now. unfold mbind, exec_bind, bind. now rewrite elems_append. }
    rewrite !Hrun.
    split; [reflexivity|]. split; [reflexivity|]. split; [reflexivity|].
    split; [|apply header_inj]. split.
    + intros H.
      apply (f_equal (fun m => match m with Ret a => a | Panic => [] end)) in H.
      cbv beta iota in H. apply app_inv_tail in H.
      now apply list_ascii_of_string_inj.
    + now intros ->.
  - left. repeat split; reflexivity.
Qed.

End Runs.

(** C3, as stated, fails: the two runs differ in the header when the clock
    has moved. *)
Lemma run_twice_counterexample :
  run exact_cap insertionSort "a.conf" "2024-01-01T00:00:00Z" example_code example_tree
  <> run exact_cap insertionSort "a.conf" "2024-01-01T00:00:01Z" example_code example_tree.
Proof. vm_compute. discriminate. Qed.

(** * Further properties of the code *)

(** ** What a location resolves to *)

Lemma split_lines_nonempty (bs : list ascii) : split_lines bs <> [].
Proof.
  intros H. pose proof (split_lines_length bs) as Hl. rewrite H in Hl.
  discriminate.
Qed.

(** All lines with their newlines make up the buffer and one byte more. *)
Lemma split_lines_total (bs : list ascii) :
  sum_list_with (fun l => S (length l)) (split_lines bs) = S (length bs).
Proof.
  induction bs as [|b rest IH]; [reflexivity|].
  simpl split_lines. destruct (Ascii.eqb b LF).
  - simpl. now rewrite IH.
  - destruct (split_lines rest) as [|l0 ls]; simpl in *; lia.
Qed.

Lemma line_start_total (bs : list ascii) :
  line_start bs (length (split_lines bs)) = Z.of_nat (length bs) + 1.
Proof.
  unfold line_start. rewrite firstn_all, split_lines_total. lia.
Qed.

Lemma line_start_le (bs : list ascii) (j k : nat) :
  (j <= k)%nat -> (k <= length (split_lines bs))%nat ->
  line_start bs j <= line_start bs k.
Proof.
  intros Hjk Hk. induction k as [|k IH]; [replace j with 0%nat by lia; lia|].
  destruct (decide (j = S k)) as [->|Hne]; [lia|].
  pose proof (line_start_step bs k ltac:(lia)). specialize (IH ltac:(lia) ltac:(lia)).
  lia.
Qed.

Lemma line_start_next (bs : list ascii) (i : nat) (l : list ascii) :
  split_lines bs !! i = Some l ->
  line_start bs (S i) = line_start bs i + Z.of_nat (length l) + 1.
Proof.
  intros Hl. unfold line_start.
  rewrite (take_S_r _ _ _ Hl), sum_list_with_app. simpl. lia.
Qed.

(** The byte [col] of line [i] stands at the start of the line plus [col]. *)
Lemma line_byte (bs : list ascii) :
  forall (i col : nat) (l : list ascii) (c : ascii),
    split_lines bs !! i = Some l -> l !! col = Some c ->
    bs !! (Z.to_nat (line_start bs i) + col)%nat = Some c.
Proof.
  induction bs as [|b rest IH]; intros i col l c Hl Hc.
  - destruct i as [|i]; simpl in Hl; [|discriminate].
    injection Hl as <-. discriminate.
  - destruct i as [|i].
    + rewrite line_start_0. simpl Z.to_nat. simpl Nat.add.
      simpl split_lines in Hl. destruct (Ascii.eqb b LF).
      * injection Hl as <-. discriminate.
      * pose proof (split_lines_nonempty rest) as Hne.
        destruct (split_lines rest) as [|l0 ls] eqn:Hsp; [contradiction|].
        injection Hl as <-. destruct col as [|col]; [exact Hc|].
        simpl in Hc. simpl.
        specialize (IH 0%nat col l0 c).
        rewrite line_start_0 in IH. apply IH; [|exact Hc].
        try rewrite Hsp. reflexivity.
    + rewrite line_start_cons. simpl split_lines in Hl.
      destruct (Ascii.eqb b LF).
      * simpl in Hl.
        assert (H0 : 0 <= line_start rest i) by (unfold line_start; lia).
        replace (Z.to_nat (1 + line_start rest i) + col)%nat
          with (S (Z.to_nat (line_start rest i) + col)) by lia.
        simpl. eapply IH; eassumption.
      * pose proof (split_lines_nonempty rest) as Hne.
        destruct (split_lines rest) as [|l0 ls] eqn:Hsp; [contradiction|].
        simpl in Hl.
        assert (H0 : 0 <= line_start rest (S i)) by (unfold line_start; lia).
        replace (Z.to_nat (1 + line_start rest (S i)) + col)%nat
          with (S (Z.to_nat (line_start rest (S i)) + col)) by lia.
        simpl. eapply (IH (S i)); [|exact Hc]. try rewrite Hsp. exact Hl.
Qed.

(** X1. In the table built from a buffer a location inside line [i]
    resolves to the start of the line plus the column, which lies in the
    buffer, and the byte there is the byte of the line at that column. *)
Theorem resolve_addresses_line_byte (source : ByteSlice) (i col : nat)
    (l : list ascii) :
  Z.of_nat (len source) <= max_int ->
  split_lines (elems source) !! i = Some l ->
  (col <= length l)%nat ->
  lineColToOffset (buildLineOffsets source) (Z.of_nat i) (Z.of_nat col)
    = line_start (elems source) i + Z.of_nat col /\
  0 <= lineColToOffset (buildLineOffsets source) (Z.of_nat i) (Z.of_nat col)
    <= Z.of_nat (len source) /\
  (forall c, l !! col = Some c ->
     elems source
       !! Z.to_nat (lineColToOffset (buildLineOffsets source) (Z.of_nat i) (Z.of_nat col))
     = Some c).
Proof.
  intros Hmax Hl Hcol.
  pose proof (lookup_lt_Some _ _ _ Hl) as Hi.
  pose proof (line_start_next _ _ _ Hl) as Hnext.
  pose proof (line_start_le (elems source) (S i)
                (length (split_lines (elems source))) ltac:(lia) ltac:(lia)) as Hle.
  rewrite line_start_total in Hle.
  assert (H0 : 0 <= line_start (elems source) i) by (unfold line_start; lia).
  assert (Hoff : lineColToOffset (buildLineOffsets source) (Z.of_nat i) (Z.of_nat col)
                 = line_start (elems source) i + Z.of_nat col).
  { rewrite (buildLineOffsets_spec source Hmax). unfold lineColToOffset.
    rewrite length_map, length_seq, <- (split_lines_length (elems source)).
    destruct (Z.ltb_spec (Z.of_nat i) 0); [lia|].
    unfold Z.geb.
    destruct (Z.compare_spec (Z.of_nat i)
                (Z.of_nat (length (split_lines (elems source))))); try lia.
    simpl orb. cbv iota. rewrite Nat2Z.id, list_lookup_fmap.
    rewrite lookup_seq_lt by exact Hi.
    simpl. apply int_add_exact. unfold len in *. unfold_int. lia. }
  rewrite Hoff. unfold len in *.
  split; [reflexivity|]. split; [lia|].
  intros c Hc.
  replace (Z.to_nat (line_start (elems source) i + Z.of_nat col))
    with (Z.to_nat (line_start (elems source) i) + col)%nat by lia.
  eapply line_byte; eassumption.
Qed.

Lemma resolve_addresses_line_byte_witness :
  lineColToOffset (buildLineOffsets multiline_code) (Z.of_nat 1) (Z.of_nat 2)
    = line_start (elems multiline_code) 1 + Z.of_nat 2 /\
  elems multiline_code
    !! Z.to_nat (lineColToOffset (buildLineOffsets multiline_code) (Z.of_nat 1) (Z.of_nat 2))
  = Some "1"%char.
Proof.
  destruct (resolve_addresses_line_byte multiline_code 1 2
              (list_ascii_of_string "  1;")) as (Hoff & _ & Hbyte).
  - vm_compute. discriminate.
  - reflexivity.
  - simpl. lia.
  - split; [exact Hoff|]. apply Hbyte. reflexivity.
Defined.

(** ** The earlier resolver and the table *)

Lemma earlier_loop_in_range (bs : list ascii) (todo : nat) :
  forall i : nat,
    Z.of_nat (length bs) < max_int ->
    (i + todo <= length (split_lines bs))%nat ->
    Earlier.lineColToOffset_loop (split_lines bs) i todo (line_start bs i)
      = Ret (line_start bs (i + todo)).
Proof.
  induction todo as [|todo IH]; intros i Hmax Hle; simpl.
  - now rewrite Nat.add_0_r.
  - destruct (split_lines bs !! i) as [l|] eqn:Hl;
      [|apply lookup_ge_None in Hl; lia].
    pose proof (line_start_next _ _ _ Hl) as Hnext.
    pose proof (line_start_le bs (S i) (length (split_lines bs))
                  ltac:(lia) ltac:(lia)) as Hbound.
    rewrite line_start_total in Hbound.
    assert (H0 : 0 <= line_start bs i) by (unfold line_start; lia).
    rewrite (int_add_exact (Z.of_nat (length l)) 1) by (unfold_int; lia).
    rewrite int_add_exact by (unfold_int; lia).
    replace (line_start bs i + (Z.of_nat (length l) + 1))
      with (line_start bs (S i)) by lia.
    rewrite IH by (assumption || lia). f_equal. f_equal. lia.
Qed.

Lemma earlier_loop_out_of_range (lines : list (list ascii)) (todo : nat) :
  forall (i : nat) (offset : Z),
    (i <= length lines)%nat -> (length lines < i + todo)%nat ->
    Earlier.lineColToOffset_loop lines i todo offset = Panic.
Proof.
  induction todo as [|todo IH]; intros i offset Hi Hgt; [lia|]. simpl.
  destruct (lines !! i) as [l|] eqn:Hl; [|reflexivity].
  apply lookup_lt_Some in Hl. apply IH; lia.
Qed.

(** X2. Where the line exists the resolver over the table returns what the
    earlier resolver computed by splitting the source. They part outside:
    one line behind the last the earlier one returns the length of the
    buffer plus one plus the column, further behind it panics, and for a
    negative line it returns the column, where the table gives 0 in all
    three cases. *)
Theorem earlier_resolver_agrees (source : ByteSlice) (line col : Z) :
  Z.of_nat (len source) < max_int ->
  (0 <= line < Z.of_nat (length (split_lines (elems source))) ->
     Earlier.lineColToOffset source line col
       = Ret (lineColToOffset (buildLineOffsets source) line col)) /\
  (line = Z.of_nat (length (split_lines (elems source))) ->
     Earlier.lineColToOffset source line col
       = Ret (int_add (Z.of_nat (len source) + 1) col) /\
     lineColToOffset (buildLineOffsets source) line col = 0) /\
  (Z.of_nat (length (split_lines (elems source))) < line ->
     Earlier.lineColToOffset source line col = Panic /\
     lineColToOffset (buildLineOffsets source) line col = 0) /\
  (line < 0 ->
     Earlier.lineColToOffset source line col = Ret (int_add 0 col) /\
     lineColToOffset (buildLineOffsets source) line col = 0).
Proof.
  intros Hmax. unfold len in Hmax.
  assert (Htable : length (buildLineOffsets source)
                   = length (split_lines (elems source))).
  { rewrite buildLineOffsets_spec by (unfold len; lia).
    now rewrite length_map, length_seq, split_lines_length. }
  assert (Hzero : forall l, l < 0 \/ Z.of_nat (length (split_lines (elems source))) <= l ->
            lineColToOffset (buildLineOffsets source) l col = 0).
  { intros l Hl. unfold lineColToOffset. rewrite Htable.
    destruct (Z.ltb_spec l 0); [reflexivity|].
    unfold Z.geb.
    destruct (Z.compare_spec l (Z.of_nat (length (split_lines (elems source)))));
      try reflexivity. lia. }
  assert (Hloop : forall n : nat,
            (n <= length (split_lines (elems source)))%nat ->
            Earlier.lineColToOffset source (Z.of_nat n) col
              = Ret (int_add (line_start (elems source) n) col)).
  { intros n Hn. unfold Earlier.lineColToOffset. rewrite Nat2Z.id.
    pose proof (earlier_loop_in_range (elems source) n 0 Hmax Hn) as H.
    rewrite line_start_0 in H. rewrite H. reflexivity. }
  split; [|split; [|split]].
  - intros [H0 Hlt].
    rewrite <- (Z2Nat.id line) at 1 by lia. rewrite Hloop by lia. f_equal.
    unfold lineColToOffset. rewrite Htable.
    destruct (Z.ltb_spec line 0); [lia|]. unfold Z.geb.
    destruct (Z.compare_spec line (Z.of_nat (length (split_lines (elems source)))));
      try lia.
    simpl orb. cbv iota.
    rewrite buildLineOffsets_spec by (unfold len; lia).
    rewrite list_lookup_fmap, <- (split_lines_length (elems source)).
    rewrite lookup_seq_lt by lia. reflexivity.
  - intros ->. split; [|apply Hzero; lia].
    rewrite Hloop by lia. rewrite line_start_total. reflexivity.
  - intros Hgt. split; [|apply Hzero; lia].
    unfold Earlier.lineColToOffset.
    rewrite earlier_loop_out_of_range by lia. reflexivity.
  - intros Hneg. split; [|apply Hzero; lia].
    unfold Earlier.lineColToOffset.
    replace (Z.to_nat line) with 0%nat by lia. reflexivity.
Qed.

Lemma earlier_resolver_agrees_witness :
  Earlier.lineColToOffset multiline_code 1 2
    = Ret (lineColToOffset (buildLineOffsets multiline_code) 1 2) /\
  Earlier.lineColToOffset multiline_code 3 2 = Ret (int_add (Z.of_nat 24 + 1) 2) /\
  Earlier.lineColToOffset multiline_code 4 2 = Panic /\
  lineColToOffset (buildLineOffsets multiline_code) 4 2 = 0.
Proof.
  destruct (earlier_resolver_agrees multiline_code 1 2) as (H1 & _);
    [vm_compute; reflexivity|].
  destruct (earlier_resolver_agrees multiline_code 3 2) as (_ & H3 & _);
    [vm_compute; reflexivity|].
  destruct (earlier_resolver_agrees multiline_code 4 2) as (_ & _ & H4 & _);
    [vm_compute; reflexivity|].
  split; [apply H1; vm_compute; split; [discriminate|reflexivity]|].
  split; [apply H3; reflexivity|].
  apply H4. vm_compute. reflexivity.
Defined.

(** ** What the passes leave *)

Lemma bindResult_same_buffer (ctx c : Context) (b : LocalBind) :
  same_buffer ctx c -> bindResult c b = bindResult ctx b.
Proof.
  intros (Hp & Hs & Hl). unfold bindResult, collectLocalBindReplacement.
  now rewrite Hp, Hs, Hl.
Qed.

Lemma bindResult_Panic_iff (ctx : Context) (b : LocalBind) :
  bindResult ctx b = Panic <->
  IsSet (LocRange b) = true /\ ~ in_capacity ctx (bindOffsets ctx b).
Proof.
  unfold bindResult, collectLocalBindReplacement, in_capacity, bindOffsets.
  cbv zeta. simpl fst. simpl snd.
  destruct (IsSet (LocRange b)); [|split; [discriminate|intros [? _]; discriminate]].
  rewrite <- slice_Panic_iff.
  destruct (slice _ _ _) as [span|]; simpl.
  - split; [|intros [_ ?]; discriminate].
    destruct (String.eqb _ _); discriminate.
  - split; [split; reflexivity|reflexivity].
Qed.

Lemma collectBind_unfold (c : Context) (b : LocalBind) :
  collectBind c b =
  match bindResult c b with
  | Ret (Some rep) => Ret (add_localBind (add_replacement c rep) (Variable_ b))
  | Ret None => Ret c
  | Panic => Panic
  end.
Proof.
  unfold collectBind, bindResult.
  destruct (collectLocalBindReplacement _ _ _ _) as [[rep|]|]; reflexivity.
Qed.

(** The loop over binds: it panics at the first bind that does, and
    otherwise adds the edit and the name of every accepted bind. *)
Lemma forEach_collectBind_outcome (ctx : Context) (bs : list LocalBind) :
  forall c, same_buffer ctx c ->
    match forEach collectBind c bs with
    | Panic => exists b, b ∈ bs /\ bindResult ctx b = Panic
    | Ret c' =>
        same_buffer ctx c' /\
        Forall (fun b => bindResult ctx b <> Panic) bs /\
        replacements c' = replacements c ++ omap (fun b => edit_of (bindResult ctx b)) bs /\
        (forall x, x ∈ localBinds c' <->
           x ∈ localBinds c \/
           exists b, b ∈ bs /\ Variable_ b = x /\ is_Some (edit_of (bindResult ctx b)))
    end.
Proof.
  induction bs as [|b bs IH]; intros c Hc.
  - simpl. split; [exact Hc|]. split; [constructor|].
    split; [now rewrite app_nil_r|].
    intros x. split; [auto|]. intros [H|(b & Hb & _)]; [exact H|inversion Hb].
  - simpl forEach. rewrite collectBind_unfold.
    rewrite (bindResult_same_buffer ctx c b Hc).
    destruct (bindResult ctx b) as [[rep|]|] eqn:Hres; simpl.
    + assert (Hc1 : same_buffer ctx
                      (add_localBind (add_replacement c rep) (Variable_ b))).
      { destruct Hc as (?&?&?). repeat split; assumption. }
      specialize (IH _ Hc1).
      destruct (forEach collectBind _ bs) as [c'|].
      * destruct IH as (Hsb & Hall & Hreps & Hset).
        split; [exact Hsb|]. split; [constructor; [congruence|exact Hall]|].
        split; [rewrite Hreps; simpl; rewrite Hres; simpl;
                now rewrite <- app_assoc|].
        intros x. rewrite Hset. simpl. rewrite elem_of_union, elem_of_singleton.
        split.
        -- intros [[->|H]|(b' & Hb' & Hx & Hsome)].
           ++ right. exists b. split; [left|]. split; [reflexivity|].
              rewrite Hres. simpl. eauto.
           ++ left. exact H.
           ++ right. exists b'. split; [now right|]. split; assumption.
        -- intros [H|(b' & Hb' & Hx & Hsome)]; [left; right; exact H|].
           apply elem_of_cons in Hb' as [->|Hb'].
           ++ left. left. now symmetry.
           ++ right. exists b'. split; [exact Hb'|]. split; assumption.
      * destruct IH as (b' & Hb' & Hp). exists b'. split; [now right|exact Hp].
    + specialize (IH _ Hc). destruct (forEach collectBind c bs) as [c'|].
      * destruct IH as (Hsb & Hall & Hreps & Hset).
        split; [exact Hsb|]. split; [constructor; [congruence|exact Hall]|].
        split; [rewrite Hreps; simpl; rewrite Hres; reflexivity|].
        intros x. rewrite Hset. split.
        -- intros [H|(b' & Hb' & Hx & Hsome)]; [left; exact H|].
           right. exists b'. split; [now right|]. split; assumption.
        -- intros [H|(b' & Hb' & Hx & Hsome)]; [left; exact H|].
           apply elem_of_cons in Hb' as [->|Hb'].
           ++ rewrite Hres in Hsome. simpl in Hsome. destruct Hsome; discriminate.
           ++ right. exists b'. split; [exact Hb'|]. split; assumption.
      * destruct IH as (b' & Hb' & Hp). exists b'. split; [now right|exact Hp].
    + exists b. split; [left|exact Hres].
Qed.

(** X3. The bind pass panics exactly when some bind of the tree has a set
    location and a span outside the capacity of the buffer. When it
    returns it has kept buffer, table and prefix, has appended to the edit
    list the edit of every accepted bind in walk order, and a name is in
    the rename set exactly when it was there before or is the name of an
    accepted bind: whether a bind is accepted does not depend on the binds
    around it. *)
Theorem bind_pass_outcome (ctx : Context) (node : Node) :
  (collectLocalBindReplacements ctx node = Panic <->
     exists b, b ∈ bindsOf node /\ IsSet (LocRange b) = true /\
               ~ in_capacity ctx (bindOffsets ctx b)) /\
  (forall ctx1, collectLocalBindReplacements ctx node = Ret ctx1 ->
     same_buffer ctx ctx1 /\
     replacements ctx1
       = replacements ctx ++ omap (fun b => edit_of (bindResult ctx b)) (bindsOf node) /\
     (forall x, x ∈ localBinds ctx1 <->
        x ∈ localBinds ctx \/
        exists b, b ∈ bindsOf node /\ Variable_ b = x /\
                  is_Some (edit_of (bindResult ctx b)))).
Proof.
  rewrite collectLocalBindReplacements_walk.
  pose proof (forEach_collectBind_outcome ctx (bindsOf node) ctx
                (same_buffer_refl ctx)) as H.
  destruct (forEach collectBind ctx (bindsOf node)) as [c'|].
  - destruct H as (Hsb & Hall & Hreps & Hset). split.
    + split; [discriminate|]. intros (b & Hb & Hset' & Hcap).
      exfalso. apply (proj1 (Forall_forall _ _) Hall b Hb).
      apply bindResult_Panic_iff. split; assumption.
    + intros ctx1 [= <-]. split; [exact Hsb|]. split; [exact Hreps|exact Hset].
  - destruct H as (b & Hb & Hp). split; [|discriminate].
    split; [|reflexivity]. intros _. exists b. split; [exact Hb|].
    apply bindResult_Panic_iff. exact Hp.
Qed.

Lemma bind_pass_outcome_witness :
  collectLocalBindReplacements example_ctx example_tree = Ret example_ctx1 /\
  replacements example_ctx1 = [mkRep 6 7 "_b31f2734_x"] /\
  ("x" ∈ localBinds example_ctx1) /\
  collectLocalBindReplacements long_ctx long_tree = Panic.
Proof.
  destruct (bind_pass_outcome example_ctx example_tree) as [_ Hret].
  destruct (Hret example_ctx1 example_bind_pass) as (_ & Hreps & Hset).
  split; [exact example_bind_pass|]. split; [exact Hreps|].
  split.
  - apply Hset. right. exists (mkBind "x" (loc 1 7 1 12)).
    split; [left|]. split; [reflexivity|]. vm_compute. eauto.
  - apply (proj1 (bind_pass_outcome long_ctx long_tree)).
    exists (mkBind "x" (loc 1 518 2 3)). split; [left|].
    split; [reflexivity|]. unfold in_capacity. vm_compute.
    intros (_ & _ & H). apply H. reflexivity.
Defined.

(** X4. The reference pass panics exactly when some reference of the tree
    whose identifier is in the rename set has a set location and a span
    outside the capacity of the buffer. When it returns, the edits it has
    appended are, in walk order, exactly the edits of the references in the
    rename set whose span spells their identifier: none is left out, none
    is added twice, and a reference outside the set never makes it panic. *)
Theorem reference_pass_outcome (ctx : Context) (node : Node) :
  (collectVarReplacements ctx node = Panic <->
     exists v, v ∈ varsOf node /\ snd v ∈ localBinds ctx /\
               IsSet (Loc (fst v)) = true /\
               ~ in_capacity ctx (varOffsets ctx (fst v))) /\
  (forall ctx2, collectVarReplacements ctx node = Ret ctx2 ->
     replacements ctx2
       = replacements ctx ++
         omap (fun v => edit_of (varResult ctx v))
              (filter (fun v => snd v ∈ localBinds ctx) (varsOf node))).
Proof.
  rewrite reference_pass_candidates.
  set (cands := filter (fun v => snd v ∈ localBinds ctx) (varsOf node)).
  pose proof (forEach_collectCandidate_outcome ctx cands ctx
                (same_buffer_refl ctx)) as H.
  destruct (forEach collectCandidate ctx cands) as [c'|].
  - destruct H as (Hsb & Hlb & Hall & Hreps). split.
    + split; [discriminate|]. intros (v & Hv & Hin & Hset & Hcap).
      exfalso. apply (proj1 (Forall_forall _ _) Hall v).
      * apply list_elem_of_filter. split; assumption.
      * apply varResult_Panic_iff. split; assumption.
    + intros ctx2 [= <-]. exact Hreps.
  - destruct H as (v & Hv & Hp). split; [|discriminate].
    split; [|reflexivity]. intros _.
    apply list_elem_of_filter in Hv as [Hin Hv].
    apply varResult_Panic_iff in Hp as [Hset Hcap].
    exists v. repeat split; assumption.
Qed.

Lemma reference_pass_outcome_witness :
  replacements example_ctx2
    = replacements example_ctx1 ++ [mkRep 13 14 "_b31f2734_x"] /\
  collectVarReplacements example_ctx1 (Var (loc 1 14 1 600) "x" []) = Panic.
Proof.
  split.
  - pose proof (proj2 (reference_pass_outcome example_ctx1 example_tree)
                  example_ctx2 example_reference_pass) as H.
    vm_compute in H. vm_compute. exact H.
  - apply (proj1 (reference_pass_outcome example_ctx1
                    (Var (loc 1 14 1 600) "x" []))).
    exists (Var (loc 1 14 1 600) "x" [], "x").
    split; [left|]. split; [simpl; set_solver|].
    split; [reflexivity|]. unfold in_capacity. vm_compute.
    intros (_ & _ & H). apply H. reflexivity.
Defined.

(** ** The two passes together *)

(** What the bind pass leaves when it returns. *)
Lemma bind_pass_returns (ctx ctx1 : Context) (node : Node) :
  collectLocalBindReplacements ctx node = Ret ctx1 ->
  same_buffer ctx ctx1 /\
  replacements ctx1
    = replacements ctx ++ omap (fun b => edit_of (bindResult ctx b)) (bindsOf node) /\
  (forall x, x ∈ localBinds ctx1 <->
     x ∈ localBinds ctx \/
     exists b, b ∈ bindsOf node /\ Variable_ b = x /\
               is_Some (edit_of (bindResult ctx b))).
Proof.
  rewrite collectLocalBindReplacements_walk. intros H.
  pose proof (forEach_collectBind_outcome ctx (bindsOf node) ctx
                (same_buffer_refl ctx)) as Hout.
  rewrite H in Hout. destruct Hout as (Hsb & _ & Hreps & Hset).
  split; [exact Hsb|]. split; [exact Hreps|exact Hset].
Qed.

(** X5. A reference is renamed with its bind, wherever it stands: when
    both passes return, a bind of the tree that the bind collector accepts
    and a reference of the tree with the same identifier that the reference
    collector accepts both have their edit in the final list, and both edits
    carry the same new text, the prefix, an underscore and the name. *)
Theorem references_follow_binds (ctx ctx1 ctx2 : Context) (node : Node)
    (b : LocalBind) (v : Node * string) (rb rv : Replacement) :
  collectLocalBindReplacements ctx node = Ret ctx1 ->
  collectVarReplacements ctx1 node = Ret ctx2 ->
  b ∈ bindsOf node ->
  collectLocalBindReplacement ctx b (Variable_ b)
    (prefix ctx +:+ "_" +:+ Variable_ b) = Ret (Some rb) ->
  v ∈ varsOf node ->
  snd v = Variable_ b ->
  collectVarReplacement ctx (fst v) (snd v)
    (prefix ctx +:+ "_" +:+ snd v) = Ret (Some rv) ->
  rb ∈ replacements ctx2 /\ rv ∈ replacements ctx2 /\
  newValue rb = prefix ctx +:+ "_" +:+ Variable_ b /\
  newValue rv = newValue rb.
Proof.
  intros H1 H2 Hb Hrb Hv Hname Hrv.
  destruct (bind_pass_returns _ _ _ H1) as (Hsb1 & Hreps1 & Hset1).
  destruct (reference_pass_returns _ _ _ H2) as (_ & _ & Hreps2).
  assert (Hin1 : rb ∈ replacements ctx1).
  { rewrite Hreps1. apply elem_of_app. right. apply list_elem_of_omap.
    exists b. split; [exact Hb|]. unfold bindResult. now rewrite Hrb. }
  assert (Hx : snd v ∈ localBinds ctx1).
  { apply Hset1. right. exists b. split; [exact Hb|]. split; [now symmetry|].
    unfold bindResult. rewrite Hrb. simpl. eauto. }
  split; [rewrite Hreps2; apply elem_of_app; left; exact Hin1|].
  split.
  - rewrite Hreps2. apply elem_of_app. right. apply list_elem_of_omap.
    exists v. split; [apply list_elem_of_filter; split; assumption|].
    rewrite (varResult_same_buffer ctx ctx1 v Hsb1).
    unfold varResult. now rewrite Hrv.
  - apply collectLocalBindReplacement_accepted in Hrb as (_ & -> & _).
    apply collectVarReplacement_accepted in Hrv as (_ & -> & _).
    simpl. split; [reflexivity|]. now rewrite Hname.
Qed.

Lemma references_follow_binds_witness :
  mkRep 6 7 "_b31f2734_x" ∈ replacements example_ctx2 /\
  mkRep 13 14 "_b31f2734_x" ∈ replacements example_ctx2.
Proof.
  destruct (references_follow_binds example_ctx example_ctx1 example_ctx2
              example_tree (mkBind "x" (loc 1 7 1 12))
              (Var (loc 1 14 1 15) "x" [], "x")
              (mkRep 6 7 "_b31f2734_x") (mkRep 13 14 "_b31f2734_x"))
    as (Hb & Hv & _).
  - exact example_bind_pass.
  - exact example_reference_pass.
  - left.
  - vm_compute. reflexivity.
  - simpl. left.
  - reflexivity.
  - vm_compute. reflexivity.
  - split; assumption.
Defined.

Section Pipeline.

Variable newcap : nat -> nat -> nat.
Variable sort_Slice :
  (Replacement -> Replacement -> bool) -> list Replacement -> list Replacement.
Hypothesis sort_Slice_perm :
  forall l, Permutation (sort_Slice less l) l.
Hypothesis sort_Slice_sorted :
  forall l, StronglySorted (fun a b => beginOffset b <= beginOffset a)
                           (sort_Slice less l).

(** X6. Without an accepted bind nothing is renamed: when the bind
    collector returns [no match at loc] for every bind of the tree, the
    rename set stays empty, no reference is looked at (not even one whose
    location would make the collector panic), the applier returns the
    buffer it was given and the output is the header followed by the file
    as it was read. *)
Theorem no_accepted_bind_keeps_file (path now : string) (code : ByteSlice)
    (node : Node) :
  Forall (fun b => collectLocalBindReplacement (initContext path code) b
                     (Variable_ b) (hash path +:+ "_" +:+ Variable_ b) = Ret None)
         (bindsOf node) ->
  collectVarReplacements (initContext path code) node = Ret (initContext path code) /\
  newSource newcap sort_Slice path code node = Ret code /\
  run newcap sort_Slice path now code node
    = Ret (list_ascii_of_string (header now path) ++ elems code).
Proof.
  intros Hnone. set (ctx := initContext path code).
  assert (Hall : Forall (fun b => bindResult ctx b = Ret None) (bindsOf node))
    by exact Hnone.
  assert (Hpass1 : collectLocalBindReplacements ctx node = Ret ctx).
  { rewrite collectLocalBindReplacements_walk. clear Hnone.
    induction Hall as [|b bs Hb _ IH]; [reflexivity|].
    simpl forEach. rewrite collectBind_unfold, Hb. exact IH. }
  assert (Hpass2 : collectVarReplacements ctx node = Ret ctx).
  { rewrite reference_pass_candidates.
    replace (filter (fun v => snd v ∈ localBinds ctx) (varsOf node))
      with (@nil (Node * string)); [reflexivity|].
    symmetry. induction (varsOf node) as [|v vs IH]; [reflexivity|].
    rewrite filter_cons_False; [exact IH|]. simpl. apply not_elem_of_empty. }
  assert (Hnew : newSource newcap sort_Slice path code node = Ret code).
  { unfold newSource. fold ctx. rewrite Hpass1. simpl. rewrite Hpass2. simpl.
    unfold applyReplacements. simpl.
    now rewrite (proj1 (Permutation_nil_r _) (sort_Slice_perm [])). }
  split; [exact Hpass2|]. split; [exact Hnew|].
  unfold run. rewrite Hnew. simpl. now rewrite elems_append.
Qed.

End Pipeline.

Lemma no_accepted_bind_keeps_file_witness :
  newSource exact_cap insertionSort "a.conf" multiline_code multiline_tree
    = Ret multiline_code.
Proof.
  apply (no_accepted_bind_keeps_file exact_cap insertionSort
           (insertionSort_perm less) "a.conf" "" multiline_code multiline_tree).
  simpl. repeat constructor.
Defined.

(** ** The length of the output *)

Lemma rebuild_to_length (src : list ascii) (asc : list Replacement) :
  forall pos stop : nat,
    (pos <= stop)%nat -> (stop <= length src)%nat ->
    in_source_order asc ->
    Forall (valid_edit stop) asc ->
    Forall (fun r => Z.of_nat pos <= beginOffset r) asc ->
    Z.of_nat (length (rebuild_to src pos asc stop))
    = Z.of_nat stop - Z.of_nat pos + total_growth asc.
Proof.
  induction asc as [|r rest IH]; intros pos stop Hpos Hstop Hord Hvalid Hfrom; simpl.
  - rewrite length_take, length_drop. lia.
  - apply StronglySorted_inv in Hord as [Hord Hhd].
    apply Forall_cons in Hvalid as [(H0 & H1 & H2) Hvalid].
    apply Forall_cons in Hfrom as [Hb Hfrom].
    rewrite !length_app, length_take, length_drop.
    rewrite !Nat2Z.inj_add.
    rewrite (IH (Z.to_nat (endOffset r)) stop); [| lia | lia | exact Hord
      | exact Hvalid | ].
    + unfold growth, strlen.
      assert (Hs : String.length (newValue r)
                   = length (list_ascii_of_string (newValue r))).
      { generalize (newValue r). intros s. induction s; simpl; congruence. }
      rewrite Hs. lia.
    + eapply Forall_impl; [exact Hhd|]. intros r' Hr'. cbv beta in Hr'. lia.
Qed.

Lemma String_length_app (a b : string) :
  String.length (a +:+ b) = (String.length a + String.length b)%nat.
Proof. induction a as [|c a IH]; [reflexivity|]. simpl. now rewrite IH. Qed.

Lemma hash_length (path : string) : String.length (hash path) = 9%nat.
Proof.
  unfold hash.
  destruct (sprintf_08x_spec _ (Sum32a_range (list_ascii_of_string path)))
    as (ds & -> & Hlen & _).
  simpl. rewrite String_length_bytes, list_ascii_of_string_of_list_ascii.
  now rewrite Hlen.
Qed.

(** An accepted edit replaces a name by the name behind a prefix. *)
Lemma edit_matches_growth (arr : list ascii) (pfx : string) (r : Replacement) :
  edit_matches arr pfx r ->
  valid_edit (length arr) r /\ growth r = strlen pfx + 1.
Proof.
  intros (old & Hnew & H0 & H1 & H2 & Hspan).
  split; [repeat split; assumption|].
  unfold growth, strlen. rewrite Hnew, !String_length_app.
  rewrite (String_length_bytes old), <- Hspan, length_take, length_drop.
  simpl String.length. lia.
Qed.

Section Lengths.

Variable newcap : nat -> nat -> nat.
Variable sort_Slice :
  (Replacement -> Replacement -> bool) -> list Replacement -> list Replacement.
Hypothesis sort_Slice_perm :
  forall l, Permutation (sort_Slice less l) l.
Hypothesis sort_Slice_sorted :
  forall l, StronglySorted (fun a b => beginOffset b <= beginOffset a)
                           (sort_Slice less l).

(** X7. On edits that are valid in the buffer, share no byte and begin at
    distinct offsets, the applier returns a buffer whose length is the
    length of the source plus, for every edit, the length of its new text
    less the length of the range it replaces. *)
Theorem applyReplacements_length (ctx : Context) :
  Forall (valid_edit (len (source ctx))) (replacements ctx) ->
  non_overlapping (replacements ctx) ->
  NoDup (map beginOffset (replacements ctx)) ->
  exists out : ByteSlice,
    applyReplacements newcap sort_Slice ctx = Ret out /\
    Z.of_nat (len out)
    = Z.of_nat (len (source ctx)) + total_growth (replacements ctx).
Proof.
  intros Hvalid Hno Hnd.
  destruct (applyReplacements_rebuilds newcap sort_Slice sort_Slice_perm
              sort_Slice_sorted ctx Hvalid Hno Hnd) as (out & Hout & Hord & Hel).
  exists out. split; [exact Hout|].
  assert (Hperm : Permutation (reverse (sort_Slice less (replacements ctx)))
                              (replacements ctx))
    by (rewrite reverse_Permutation; apply sort_Slice_perm).
  unfold len at 1. rewrite Hel. unfold rebuild.
  rewrite rebuild_to_length.
  - rewrite (total_growth_perm _ _ Hperm). unfold len. lia.
  - lia.
  - lia.
  - exact Hord.
  - rewrite Hperm. exact Hvalid.
  - rewrite Hperm. eapply Forall_impl; [exact Hvalid|].
    intros r (H0 & _). simpl. exact H0.
Qed.

(** X8. The pipeline on a file as [os.ReadFile] returns it (zero bytes
    behind the content) and a tree whose names are not empty and hold no
    zero byte: when both passes return and the edits they leave share no
    byte and begin at distinct offsets, [main] gets the source with the
    range of every edit replaced by its new text, and every edit has made
    the file ten bytes longer (the nine bytes of the prefix and the
    underscore). *)
Theorem newSource_renames (path : string) (code : ByteSlice) (node : Node)
    (ctx1 ctx2 : Context) :
  Forall (fun c => c = NUL) (spare code) ->
  plain_names node ->
  collectLocalBindReplacements (initContext path code) node = Ret ctx1 ->
  collectVarReplacements ctx1 node = Ret ctx2 ->
  non_overlapping (replacements ctx2) ->
  NoDup (map beginOffset (replacements ctx2)) ->
  exists out : ByteSlice,
    newSource newcap sort_Slice path code node = Ret out /\
    Replaced (elems code) (replacements ctx2) (elems out) /\
    len out = (len code + 10 * length (replacements ctx2))%nat.
Proof.
  intros Hnul [Hb Hv] H1 H2 Hno Hnd.
  destruct (passes_add_matching_edits (elems code) plain_name node
              (initContext path code) ctx1 ctx2) as (Hsb & added & Hadd & Hall);
    [|exact Hb|exact Hv|exact H1|exact H2|].
  { intros b e name Hname Hm. apply span_within_len; assumption. }
  simpl in Hadd, Hall. destruct Hsb as (_ & Hsrc & _). simpl in Hsrc.
  assert (Hedits : Forall (fun r => valid_edit (len code) r /\ growth r = 10)
                          (replacements ctx2)).
  { rewrite Hadd. eapply Forall_impl; [exact Hall|]. intros r Hr.
    apply edit_matches_growth in Hr as [Hvalid Hg]. split; [exact Hvalid|].
    rewrite Hg. unfold strlen. rewrite hash_length. reflexivity. }
  assert (Hvalid : Forall (valid_edit (len (source ctx2))) (replacements ctx2)).
  { rewrite Hsrc. eapply Forall_impl; [exact Hedits|]. now intros r [? _]. }
  destruct (applyReplacements_rebuilds newcap sort_Slice sort_Slice_perm
              sort_Slice_sorted ctx2 Hvalid Hno Hnd) as (out & Hout & Hord & Hel).
  rewrite Hsrc in Hel.
  assert (Hperm : Permutation (reverse (sort_Slice less (replacements ctx2)))
                              (replacements ctx2))
    by (rewrite reverse_Permutation; apply sort_Slice_perm).
  exists out. split; [|split].
  - unfold newSource. rewrite H1. simpl. rewrite H2. exact Hout.
  - exists (reverse (sort_Slice less (replacements ctx2))).
    split; [exact Hperm|]. split; [exact Hord|exact Hel].
  - assert (Hg : total_growth (replacements ctx2)
                 = 10 * Z.of_nat (length (replacements ctx2))).
    { clear -Hedits. induction Hedits as [|r l [_ Hr] _ IH]; [reflexivity|].
      simpl total_growth. simpl length. rewrite Hr, IH. lia. }
    assert (Hlen : Z.of_nat (len out)
                   = Z.of_nat (len code) + total_growth (replacements ctx2)).
    { unfold len at 1. rewrite Hel. unfold rebuild.
      rewrite rebuild_to_length.
      - rewrite (total_growth_perm _ _ Hperm). unfold len. lia.
      - lia.
      - lia.
      - exact Hord.
      - rewrite Hperm. eapply Forall_impl; [exact Hedits|]. now intros r [? _].
      - rewrite Hperm. eapply Forall_impl; [exact Hedits|].
        intros r [(H0 & _) _]. simpl. exact H0. }
    lia.
Qed.

End Lengths.

Lemma applyReplacements_length_witness :
  exists out : ByteSlice,
    applyReplacements exact_cap insertionSort two_edits_ctx = Ret out /\
    Z.of_nat (len out) = 4 + 3.
Proof.
  apply (applyReplacements_length exact_cap insertionSort
           (insertionSort_perm less) insertionSort_sorted two_edits_ctx).
  - solve_edits.
  - solve_edits.
  - simpl. apply NoDup_cons. split; [|apply NoDup_singleton].
    intros H. apply list_elem_of_singleton in H. discriminate.
Defined.

Lemma newSource_renames_witness :
  exists out : ByteSlice,
    newSource exact_cap insertionSort "a.conf" example_code example_tree = Ret out /\
    Replaced (elems example_code) (replacements example_ctx2) (elems out) /\
    len out = (18 + 10 * 2)%nat.
Proof.
  apply (newSource_renames exact_cap insertionSort
           (insertionSort_perm less) insertionSort_sorted
           "a.conf" example_code example_tree example_ctx1 example_ctx2).
  - apply Forall_replicate. reflexivity.
  - exact example_plain_names.
  - exact example_bind_pass.
  - exact example_reference_pass.
  - solve_edits.
  - simpl. apply NoDup_cons. split; [|apply NoDup_singleton].
    intros H. apply list_elem_of_singleton in H. discriminate.
Defined.

(** ** The new names *)

Lemma hash_eq_iff (p1 p2 : string) :
  hash p1 = hash p2 <->
  Fnv.Sum32a (list_ascii_of_string p1) = Fnv.Sum32a (list_ascii_of_string p2).
Proof.
  split; [|unfold hash; cbv zeta; now intros ->].
  unfold hash. cbv zeta.
  destruct (sprintf_08x_spec _ (Sum32a_range (list_ascii_of_string p1)))
    as (ds1 & -> & _ & _ & <-).
  destruct (sprintf_08x_spec _ (Sum32a_range (list_ascii_of_string p2)))
    as (ds2 & -> & _ & _ & <-).
  intros [= H]. apply (f_equal list_ascii_of_string) in H.
  rewrite !list_ascii_of_string_of_list_ascii in H. now rewrite H.
Qed.

(** X9. New names collide only when they must: the new name of [n1] in the
    file [p1] is the new name of [n2] in the file [p2] exactly when the
    names are the same and the FNV-1a hashes of the two paths are. In one
    file two binds get the same new name only when they had the same name,
    and a new name is never the name it replaces. *)
Theorem newName_injective (p1 p2 n1 n2 : string) :
  (newName p1 n1 = newName p2 n2 <->
     Fnv.Sum32a (list_ascii_of_string p1) = Fnv.Sum32a (list_ascii_of_string p2) /\
     n1 = n2) /\
  newName p1 n1 <> n1.
Proof.
  unfold newName. split.
  - split.
    + intros H. apply (f_equal list_ascii_of_string) in H.
      rewrite !list_ascii_of_string_app in H.
      apply app_inj_1 in H as [Hh Hn];
        [|now rewrite <- !String_length_bytes, !hash_length].
      apply list_ascii_of_string_inj in Hh. apply hash_eq_iff in Hh.
      split; [exact Hh|]. apply list_ascii_of_string_inj.
      simpl in Hn. now injection Hn.
    + intros [Hh ->]. apply hash_eq_iff in Hh. now rewrite Hh.
  - intros H. apply (f_equal String.length) in H.
    rewrite !String_length_app, hash_length in H. simpl in H. lia.
Qed.

(** X10. The underscore in front of the hash makes the new name an
    identifier: whatever the path, and for every old name made of letters,
    digits and underscores (even one that is empty or begins with a digit),
    the new name begins with an underscore, continues with letters, digits
    and underscores only, and is ten bytes longer than the old one. *)
Theorem newName_is_identifier (path oldName : string) :
  Forall (fun c => is_ident_char c = true) (list_ascii_of_string oldName) ->
  is_identifier (newName path oldName) = true /\
  String.length (newName path oldName) = (String.length oldName + 10)%nat.
Proof.
  intros Hold. unfold newName. split.
  - unfold is_identifier. rewrite !list_ascii_of_string_app. unfold hash.
    cbv zeta.
    destruct (sprintf_08x_spec _ (Sum32a_range (list_ascii_of_string path)))
      as (ds & -> & _ & Hhex & _).
    simpl. rewrite list_ascii_of_string_of_list_ascii.
    apply forallb_forall. intros c Hc.
    apply in_app_or in Hc as [Hc|[<-|Hc]].
    + apply is_hex_digit_ident_char.
      apply (proj1 (Forall_forall _ _) Hhex). now apply list_elem_of_In.
    + reflexivity.
    + apply (proj1 (Forall_forall _ _) Hold). now apply list_elem_of_In.
  - rewrite !String_length_app, hash_length. simpl. lia.
Qed.

Lemma newName_is_identifier_witness :
  is_identifier (newName "a.conf" "x") = true /\
  String.length (newName "a.conf" "x") = 11%nat.
Proof.
  apply (newName_is_identifier "a.conf" "x").
  repeat constructor.
Defined.

(** ** Positions and offsets *)

Lemma resolve_in_line (source : ByteSlice) (i col : nat) (l : list ascii) :
  Z.of_nat (len source) <= max_int ->
  split_lines (elems source) !! i = Some l ->
  (col <= length l)%nat ->
  lineColToOffset (buildLineOffsets source) (Z.of_nat i) (Z.of_nat col)
    = line_start (elems source) i + Z.of_nat col.
Proof.
  intros Hmax Hl Hcol.
  pose proof (lookup_lt_Some _ _ _ Hl) as Hi.
  pose proof (line_start_next _ _ _ Hl) as Hnext.
  pose proof (line_start_le (elems source) (S i)
                (length (split_lines (elems source))) ltac:(lia) ltac:(lia)) as Hle.
  rewrite line_start_total in Hle.
  assert (H0 : 0 <= line_start (elems source) i) by (unfold line_start; lia).
  rewrite (buildLineOffsets_spec source Hmax). unfold lineColToOffset.
  rewrite length_map, length_seq, <- (split_lines_length (elems source)).
  destruct (Z.ltb_spec (Z.of_nat i) 0); [lia|].
  unfold Z.geb.
  destruct (Z.compare_spec (Z.of_nat i)
              (Z.of_nat (length (split_lines (elems source))))); try lia.
  simpl orb. cbv iota. rewrite Nat2Z.id, list_lookup_fmap.
  rewrite lookup_seq_lt by exact Hi.
  simpl. apply int_add_exact. unfold len in *. unfold_int. lia.
Qed.

(** Every offset below the start of line [k] lies in a line before it. *)
Lemma offset_in_line (bs : list ascii) (o : Z) (k : nat) :
  (k <= length (split_lines bs))%nat ->
  0 <= o < line_start bs k ->
  exists (i : nat) (l : list ascii),
    split_lines bs !! i = Some l /\
    line_start bs i <= o <= line_start bs i + Z.of_nat (length l).
Proof.
  induction k as [|k IH]; intros Hk Ho.
  - rewrite line_start_0 in Ho. lia.
  - destruct (lookup_lt_is_Some_2 (split_lines bs) k ltac:(lia)) as [l Hl].
    destruct (Z.lt_ge_cases o (line_start bs k)) as [Hlt|Hge].
    + apply IH; lia.
    + exists k, l. split; [exact Hl|].
      rewrite (line_start_next _ _ _ Hl) in Ho. lia.
Qed.

(** X11. On the table of a buffer the resolver maps the positions inside
    the lines (line [i] of the buffer, column at most the length of that
    line) one-to-one and in order onto the offsets from 0 to the length of
    the buffer: a position resolves to a smaller offset exactly when it is
    on an earlier line, or on the same line at a smaller column, and every
    offset of the buffer is the offset of such a position. *)
Theorem resolver_orders_positions (source : ByteSlice) :
  Z.of_nat (len source) <= max_int ->
  (forall (i1 c1 i2 c2 : nat) (l1 l2 : list ascii),
     split_lines (elems source) !! i1 = Some l1 -> (c1 <= length l1)%nat ->
     split_lines (elems source) !! i2 = Some l2 -> (c2 <= length l2)%nat ->
     (lineColToOffset (buildLineOffsets source) (Z.of_nat i1) (Z.of_nat c1)
        < lineColToOffset (buildLineOffsets source) (Z.of_nat i2) (Z.of_nat c2)
      <-> (i1 < i2)%nat \/ (i1 = i2 /\ (c1 < c2)%nat))) /\
  (forall o : Z, 0 <= o <= Z.of_nat (len source) ->
     exists (i col : nat) (l : list ascii),
       split_lines (elems source) !! i = Some l /\ (col <= length l)%nat /\
       lineColToOffset (buildLineOffsets source) (Z.of_nat i) (Z.of_nat col) = o).
Proof.
  intros Hmax. split.
  - intros i1 c1 i2 c2 l1 l2 Hl1 Hc1 Hl2 Hc2.
    rewrite (resolve_in_line source i1 c1 l1 Hmax Hl1 Hc1).
    rewrite (resolve_in_line source i2 c2 l2 Hmax Hl2 Hc2).
    pose proof (lookup_lt_Some _ _ _ Hl1) as Hi1.
    pose proof (lookup_lt_Some _ _ _ Hl2) as Hi2.
    pose proof (line_start_next _ _ _ Hl1) as Hn1.
    pose proof (line_start_next _ _ _ Hl2) as Hn2.
    destruct (lt_eq_lt_dec i1 i2) as [[Hlt|Heq]|Hgt].
    + pose proof (line_start_le (elems source) (S i1) i2 ltac:(lia) ltac:(lia)).
      split; [intros _; left; exact Hlt|intros _; lia].
    + subst i2. rewrite Hl1 in Hl2. injection Hl2 as <-.
      split; [intros H; right; split; [reflexivity|lia]|intros [H|[_ H]]; lia].
    + pose proof (line_start_le (elems source) (S i2) i1 ltac:(lia) ltac:(lia)).
      split; [intros H'; lia|intros [H'|[H' _]]; lia].
  - intros o Ho.
    destruct (offset_in_line (elems source) o (length (split_lines (elems source))))
      as (i & l & Hl & Hlo & Hhi); [lia| |].
    { rewrite line_start_total. unfold len in Ho. lia. }
    exists i, (Z.to_nat (o - line_start (elems source) i)), l.
    split; [exact Hl|]. split; [lia|].
    rewrite (resolve_in_line source i _ l Hmax Hl) by lia. lia.
Qed.

Lemma resolver_orders_positions_witness :
  lineColToOffset (buildLineOffsets multiline_code) (Z.of_nat 0) (Z.of_nat 9)
    < lineColToOffset (buildLineOffsets multiline_code) (Z.of_nat 1) (Z.of_nat 0) /\
  exists (i col : nat) (l : list ascii),
    split_lines (elems multiline_code) !! i = Some l /\ (col <= length l)%nat /\
    lineColToOffset (buildLineOffsets multiline_code) (Z.of_nat i) (Z.of_nat col) = 12.
Proof.
  destruct (resolver_orders_positions multiline_code) as [Hord Honto].
  - vm_compute. discriminate.
  - split.
    + apply (Hord 0%nat 9%nat 1%nat 0%nat (list_ascii_of_string "local x =")
               (list_ascii_of_string "  1;")).
      * reflexivity.
      * simpl. lia.
      * reflexivity.
      * simpl. lia.
      * left. lia.
    + apply Honto. vm_compute. split; discriminate.
Defined.

(** ** Binds that end on a later line *)

(** The entry of the table for a line of the buffer. *)
Lemma lineColToOffset_line (source : ByteSlice) (line col : Z) :
  Z.of_nat (len source) <= max_int ->
  0 <= line < Z.of_nat (length (split_lines (elems source))) ->
  lineColToOffset (buildLineOffsets source) line col
    = int_add (line_start (elems source) (Z.to_nat line)) col.
Proof.
  intros Hmax Hline.
  rewrite (buildLineOffsets_spec source Hmax). unfold lineColToOffset.
  rewrite length_map, length_seq, <- (split_lines_length (elems source)).
  destruct (Z.ltb_spec line 0); [lia|].
  unfold Z.geb.
  destruct (Z.compare_spec line
              (Z.of_nat (length (split_lines (elems source))))); try lia.
  simpl orb. cbv iota. rewrite list_lookup_fmap.
  rewrite lookup_seq_lt by lia. reflexivity.
Qed.

Lemma split_lines_count (bs : list ascii) :
  (length (split_lines bs) <= S (length bs))%nat.
Proof.
  rewrite split_lines_length. unfold newlines.
  pose proof (length_filter (fun b => b = LF) bs). lia.
Qed.

(** X12. A bind whose range ends on a later line than it begins is never
    renamed. For a context built on a buffer, a bind that begins on a line
    of the buffer at a column of 1 or more and ends on a later line of the
    buffer (as every bind does whose body runs over a line break), the bind
    collector never returns an edit, whatever the names: the end offset is
    taken on the end line, so the span is longer than the old name. *)
Theorem later_line_bind_never_accepted (path : string) (code : ByteSlice)
    (b : LocalBind) (oldName newName' : string) (r : Replacement) :
  Z.of_nat (len code) + Column (Begin_ (LocRange b)) + strlen oldName <= max_int ->
  1 <= Line (Begin_ (LocRange b)) ->
  Line (Begin_ (LocRange b)) < Line (End_ (LocRange b)) ->
  Line (End_ (LocRange b)) <= Z.of_nat (length (buildLineOffsets code)) ->
  1 <= Column (Begin_ (LocRange b)) ->
  collectLocalBindReplacement (initContext path code) b oldName newName'
    <> Ret (Some r).
Proof.
  intros Hfit HL1 HL12 HL2 HC Hacc.
  assert (Hlen0 : 0 <= strlen oldName) by (unfold strlen; lia).
  assert (Hmax : Z.of_nat (len code) <= max_int) by lia.
  apply collectLocalBindReplacement_accepted in Hacc as (_ & Hr & Hspan).
  subst r. simpl in Hspan. destruct Hspan as (H0 & H1 & H2 & Hbytes).
  apply (f_equal (@length ascii)) in Hbytes.
  rewrite length_take, length_drop, <- String_length_bytes in Hbytes.
  rewrite (buildLineOffsets_spec code Hmax), length_map, length_seq,
    <- (split_lines_length (elems code)) in HL2.
  pose proof (split_lines_count (elems code)) as Hcount.
  set (L1 := Line (Begin_ (LocRange b))) in *.
  set (L2 := Line (End_ (LocRange b))) in *.
  set (C := Column (Begin_ (LocRange b))) in *.
  assert (HL1e : int_sub L1 1 = L1 - 1)
    by (apply int_sub_exact; unfold len in *; unfold_int; lia).
  assert (HL2e : int_sub L2 1 = L2 - 1)
    by (apply int_sub_exact; unfold len in *; unfold_int; lia).
  assert (HCe : int_sub C 1 = C - 1)
    by (apply int_sub_exact; unfold len in *; unfold_int; lia).
  assert (HEe : int_sub (int_add C (strlen oldName)) 1 = C + strlen oldName - 1).
  { rewrite int_add_exact by (unfold len in *; unfold_int; lia).
    apply int_sub_exact. unfold len in *. unfold_int. lia. }
  rewrite HL1e, HL2e, HCe, HEe in *.
  rewrite !(lineColToOffset_line code) in * by lia.
  pose proof (line_start_mono (elems code) (Z.to_nat (L1 - 1)) (Z.to_nat (L2 - 1))
                ltac:(lia)) as Hmono.
  rewrite split_lines_length in HL2.
  specialize (Hmono ltac:(lia)).
  pose proof (line_start_le (elems code) (Z.to_nat (L2 - 1))
                (length (split_lines (elems code))) ltac:(rewrite split_lines_length; lia)
                ltac:(lia)) as Hle.
  rewrite line_start_total in Hle.
  assert (Hs1 : 0 <= line_start (elems code) (Z.to_nat (L1 - 1)))
    by (unfold line_start; lia).
  rewrite !int_add_exact in * by (unfold len in *; unfold_int; lia).
  unfold strlen in *. lia.
Qed.

Lemma later_line_bind_never_accepted_witness :
  collectLocalBindReplacement multiline_ctx multiline_bind "x" "_b31f2734_x"
    <> Ret (Some (mkRep 6 7 "_b31f2734_x")).
Proof.
  apply (later_line_bind_never_accepted "a.conf" multiline_code multiline_bind
           "x" "_b31f2734_x" (mkRep 6 7 "_b31f2734_x")).
  - vm_compute. discriminate.
  - simpl. lia.
  - simpl. lia.
  - vm_compute. discriminate.
  - simpl. lia.
Defined.

(** ** What the output of the applier does not depend on *)

(** X13. The bytes the applier returns depend on the source and on the set
    of edits only: for edits that are valid in the buffer, share no byte
    and begin at distinct offsets, two runs return the same bytes whatever
    order the edits were collected in, whatever capacity the runtime gives
    to fresh arrays, and whatever sorting algorithm keeps the promise of
    [sort.Slice]. *)
Theorem applyReplacements_bytes_determined
    (newcap newcap' : nat -> nat -> nat)
    (sort_Slice sort_Slice' :
       (Replacement -> Replacement -> bool) -> list Replacement -> list Replacement)
    (ctx ctx' : Context) :
  (forall l, Permutation (sort_Slice less l) l) ->
  (forall l, StronglySorted (fun a b => beginOffset b <= beginOffset a)
                            (sort_Slice less l)) ->
  (forall l, Permutation (sort_Slice' less l) l) ->
  (forall l, StronglySorted (fun a b => beginOffset b <= beginOffset a)
                            (sort_Slice' less l)) ->
  elems (source ctx') = elems (source ctx) ->
  Permutation (replacements ctx') (replacements ctx) ->
  Forall (valid_edit (len (source ctx))) (replacements ctx) ->
  non_overlapping (replacements ctx) ->
  NoDup (map beginOffset (replacements ctx)) ->
  exists out out' : ByteSlice,
    applyReplacements newcap sort_Slice ctx = Ret out /\
    applyReplacements newcap' sort_Slice' ctx' = Ret out' /\
    elems out' = elems out.
Proof.
  intros Hp Hs Hp' Hs' Hsrc Hperm Hvalid Hno Hnd.
  assert (Hlen : len (source ctx') = len (source ctx))
    by (unfold len; now rewrite Hsrc).
  assert (Hvalid' : Forall (valid_edit (len (source ctx'))) (replacements ctx'))
    by (rewrite Hlen, Hperm; exact Hvalid).
  assert (Hno' : non_overlapping (replacements ctx'))
    by (eapply non_overlapping_perm; [symmetry; exact Hperm|exact Hno]).
  assert (Hnd' : NoDup (map beginOffset (replacements ctx'))).
  { assert (Hpm : Permutation (map beginOffset (replacements ctx'))
                              (map beginOffset (replacements ctx)))
      by (apply Permutation_map; exact Hperm).
    now rewrite Hpm. }
  destruct (applyReplacements_rebuilds newcap sort_Slice Hp Hs ctx Hvalid Hno Hnd)
    as (out & Hout & Hord & Hel).
  destruct (applyReplacements_rebuilds newcap' sort_Slice' Hp' Hs' ctx'
              Hvalid' Hno' Hnd') as (out' & Hout' & Hord' & Hel').
  exists out, out'. split; [exact Hout|]. split; [exact Hout'|].
  rewrite Hel, Hel', Hsrc. f_equal.
  apply (StronglySorted_unique_strong (fun a b => endOffset a <= beginOffset b));
    [|exact Hord'|exact Hord|now rewrite !reverse_Permutation, Hp, Hp'].
  intros x1 x2 Hx1 Hx2 H12 H21.
  rewrite reverse_Permutation, Hp', Hperm in Hx1.
  rewrite reverse_Permutation, Hp in Hx2.
  pose proof (proj1 (Forall_forall _ _) Hvalid x1 Hx1) as (?&?&?).
  pose proof (proj1 (Forall_forall _ _) Hvalid x2 Hx2) as (?&?&?).
  apply (NoDup_map_elem_eq beginOffset (replacements ctx)); [assumption..|lia].
Qed.

Lemma applyReplacements_bytes_determined_witness :
  exists out out' : ByteSlice,
    applyReplacements exact_cap insertionSort two_edits_ctx = Ret out /\
    applyReplacements (fun old needed => (2 * needed)%nat) insertionSort
      (mkContext "" [mkRep 2 3 "YYY"; mkRep 0 1 "XX"]
                 (mkSlice (list_ascii_of_string "abcd") [NUL]) [0] ∅) = Ret out' /\
    elems out' = elems out.
Proof.
  apply (applyReplacements_bytes_determined exact_cap
           (fun old needed => (2 * needed)%nat) insertionSort insertionSort
           two_edits_ctx
           (mkContext "" [mkRep 2 3 "YYY"; mkRep 0 1 "XX"]
                      (mkSlice (list_ascii_of_string "abcd") [NUL]) [0] ∅)).
  - apply insertionSort_perm.
  - apply insertionSort_sorted.
  - apply insertionSort_perm.
  - apply insertionSort_sorted.
  - reflexivity.
  - apply perm_swap.
  - solve_edits.
  - solve_edits.
  - simpl. apply NoDup_cons. split; [|apply NoDup_singleton].
    intros H. apply list_elem_of_singleton in H. discriminate.
Defined.

(** ** The entries of the table *)

Lemma buildLineOffsets_loop_elem (o : Z) (bs : list ascii) :
  forall (i : Z) (acc : list Z),
    0 <= i -> i + Z.of_nat (length bs) <= max_int ->
    (o ∈ buildLineOffsets_loop i bs acc <->
     o ∈ acc \/ exists k : nat, bs !! k = Some LF /\ o = i + Z.of_nat k + 1).
Proof.
  induction bs as [|b rest IH]; intros i acc Hi Hmax; simpl buildLineOffsets_loop.
  - split; [auto|]. intros [H|(k & Hk & _)]; [exact H|discriminate].
  - simpl length in Hmax. rewrite IH by lia. split.
    + intros [H|(k & Hk & ->)].
      * destruct (Ascii.eqb_spec b LF) as [->|Hne]; [|left; exact H].
        apply elem_of_app in H as [H|H]; [left; exact H|].
        apply list_elem_of_singleton in H. right. exists 0%nat.
        split; [reflexivity|].
        rewrite H. rewrite int_add_exact by (unfold_int; lia). lia.
      * right. exists (S k). split; [exact Hk|lia].
    + intros [H|(k & Hk & ->)].
      * left. destruct (Ascii.eqb b LF); [apply elem_of_app; left|]; exact H.
      * destruct k as [|k].
        -- injection Hk as ->. left. rewrite Ascii.eqb_refl.
           apply elem_of_app. right. apply list_elem_of_singleton.
           rewrite int_add_exact by (unfold_int; lia). lia.
        -- right. exists k. split; [exact Hk|lia].
Qed.

(** X14. The table holds 0 and, for every newline of the buffer, the
    offset of the byte behind it, and nothing else: an offset is an entry
    of [buildLineOffsets(source)] exactly when it is 0 or the byte before
    it is a newline of the buffer. *)
Theorem buildLineOffsets_entries (source : ByteSlice) (o : Z) :
  Z.of_nat (len source) <= max_int ->
  (o ∈ buildLineOffsets source <->
   o = 0 \/ (1 <= o <= Z.of_nat (len source) /\
             elems source !! Z.to_nat (o - 1) = Some LF)).
Proof.
  intros Hmax. unfold buildLineOffsets.
  rewrite buildLineOffsets_loop_elem by (unfold len in Hmax; lia).
  rewrite list_elem_of_singleton. split.
  - intros [->|(k & Hk & ->)]; [left; reflexivity|right].
    pose proof (lookup_lt_Some _ _ _ Hk) as Hlt. unfold len.
    split; [lia|]. replace (Z.to_nat (0 + Z.of_nat k + 1 - 1)) with k by lia.
    exact Hk.
  - intros [->|(Ho & Hk)]; [left; reflexivity|right].
    exists (Z.to_nat (o - 1)). split; [exact Hk|lia].
Qed.

Lemma buildLineOffsets_entries_witness :
  10 ∈ buildLineOffsets multiline_code /\ 15 ∈ buildLineOffsets multiline_code.
Proof.
  split.
  - apply (buildLineOffsets_entries multiline_code 10).
    + vm_compute. discriminate.
    + right. split; [vm_compute; split; discriminate|reflexivity].
  - apply (buildLineOffsets_entries multiline_code 15).
    + vm_compute. discriminate.
    + right. split; [vm_compute; split; discriminate|reflexivity].
Defined.

(** ** The slice expressions of the applier *)

Section OneEdit.

Variable newcap : nat -> nat -> nat.
Variable sort_Slice :
  (Replacement -> Replacement -> bool) -> list Replacement -> list Replacement.
Hypothesis sort_Slice_perm :
  forall l, Permutation (sort_Slice less l) l.

(** X15. The applier checks an edit through its two slice expressions
    only. With one pending edit it panics exactly when the begin offset is
    not within 0 and the capacity of the buffer or the end offset is not
    within 0 and its length; that the begin does not exceed the end is not
    asked for. Otherwise it returns the bytes of the backing array up to
    the begin offset, the new text, and the bytes of the buffer from the
    end offset on. *)
Theorem applyReplacements_one_edit (ctx : Context) (r : Replacement) :
  replacements ctx = [r] ->
  (applyReplacements newcap sort_Slice ctx = Panic <->
     ~ (0 <= beginOffset r <= Z.of_nat (cap (source ctx)) /\
        0 <= endOffset r <= Z.of_nat (len (source ctx)))) /\
  (forall out, applyReplacements newcap sort_Slice ctx = Ret out ->
     elems out = take (Z.to_nat (beginOffset r)) (backing (source ctx))
                   ++ list_ascii_of_string (newValue r)
                   ++ drop (Z.to_nat (endOffset r)) (elems (source ctx))).
Proof.
  intros Hreps. unfold applyReplacements. rewrite Hreps.
  rewrite (proj1 (Permutation_singleton_r _ _) (sort_Slice_perm [r])).
  simpl applyLoop. unfold splice, slice_to.
  destruct (decide (0 <= beginOffset r <= Z.of_nat (cap (source ctx)))) as [Hb|Hb].
  - rewrite slice_in_range by lia.
    destruct (decide (0 <= endOffset r <= Z.of_nat (len (source ctx)))) as [He|He].
    + destruct (slice_from_elems (source ctx) (endOffset r) He) as (t & -> & Ht).
      simpl. split.
      * split; [discriminate|]. intros H. exfalso. apply H. split; assumption.
      * intros out [= <-]. rewrite !elems_append. simpl.
        now rewrite Ht, Nat.sub_0_r.
    + unfold slice_from. rewrite slice_out_of_range by lia. simpl. split.
      * split; [intros _ [_ H]; exact (He H)|reflexivity].
      * discriminate.
  - rewrite slice_out_of_range by lia. simpl. split.
    + split; [intros _ [H _]; exact (Hb H)|reflexivity].
    + discriminate.
Qed.

End OneEdit.

Lemma applyReplacements_one_edit_witness :
  (out ← applyReplacements exact_cap insertionSort
           (mkContext "" [mkRep 3 1 "X"]
                      (mkSlice (list_ascii_of_string "abcd") []) [0] ∅);
   Ret (elems out))
  = Ret (list_ascii_of_string "abcXbcd") /\
  applyReplacements exact_cap insertionSort
    (mkContext "" [mkRep 10 11 "X"] cut_code [0] ∅) = Panic.
Proof.
  split.
  - destruct (applyReplacements_one_edit exact_cap insertionSort
                (insertionSort_perm less)
                (mkContext "" [mkRep 3 1 "X"]
                           (mkSlice (list_ascii_of_string "abcd") []) [0] ∅)
                (mkRep 3 1 "X") eq_refl) as [_ Hret].
    destruct (applyReplacements exact_cap insertionSort _) as [out|] eqn:Hout;
      [|discriminate Hout].
    simpl. f_equal. exact (Hret out eq_refl).
  - apply (applyReplacements_one_edit exact_cap insertionSort
             (insertionSort_perm less)
             (mkContext "" [mkRep 10 11 "X"] cut_code [0] ∅)
             (mkRep 10 11 "X") eq_refl).
    vm_compute. intros [_ [_ H]]. apply H. reflexivity.
Defined.
